(** * piper_wrapper: the Piper TTS subprocess manager

    A shallow embedding of [backend/piper_wrapper.py] (class [PiperWrapper])
    and the properties of its request/response cycle.

    - Python [str] values are lists of Unicode code points.
    - Python [float] values are IEEE 754 binary64 numbers (primitive floats).
    - The operating system (the disk, the engine process, its pipes) is an
      explicit [World]; each method is a function from a world to an outcome
      and a new world, and every primitive it performs is logged in a trace. *)

From Stdlib Require Import NArith ZArith Bool Ascii String List PrimFloat Lia.
From Stdlib Require FloatOps FloatAxioms SpecFloat Wf_nat.
Import ListNotations.
Set Warnings "-inexact-float,-register-all".

(** ** Python text *)

Definition char := N.
Definition str := list char.
Definition bytes := list Byte.byte.

(** A source-code string literal, as the list of its code points. *)
Definition lit (s : string) : str := map N_of_ascii (list_ascii_of_string s).

(** [str.isspace] on one code point: the set CPython's [str.split] and
    [str.strip] use to separate and trim. *)
Definition isspace (c : char) : bool :=
  ((9 <=? c) && (c <=? 13) || (28 <=? c) && (c <=? 32)
   || (c =? 133) || (c =? 160) || (c =? 5760)
   || (8192 <=? c) && (c <=? 8202)
   || (c =? 8232) || (c =? 8233) || (c =? 8239) || (c =? 8287)
   || (c =? 12288))%N.

Fixpoint lstrip (s : str) : str :=
  match s with
  | [] => []
  | c :: s' => if isspace c then lstrip s' else s
  end.

Definition rstrip (s : str) : str := rev (lstrip (rev s)).

(** [s.strip()] *)
Definition strip (s : str) : str := rstrip (lstrip s).

(** [s.split()]: scan left to right; [cur] is the word being read, newest
    code point first. Runs of whitespace separate words and produce no
    empty word. *)
Fixpoint split_from (cur : str) (s : str) : list str :=
  match s with
  | [] => match cur with [] => [] | _ => [rev cur] end
  | c :: s' =>
      if isspace c
      then match cur with
           | [] => split_from [] s'
           | _ => rev cur :: split_from [] s'
           end
      else split_from (c :: cur) s'
  end.

Definition split (s : str) : list str := split_from [] s.

(** The one-character string of a line feed. *)
Definition newline : str := [10%N].

Definition str_eqb (a b : str) : bool :=
  if list_eq_dec N.eq_dec a b then true else false.

Fixpoint startswith (pre s : str) : bool :=
  match pre, s with
  | [], _ => true
  | p :: pre', c :: s' => (p =? c)%N && startswith pre' s'
  | _ :: _, [] => false
  end.

(** ** Python objects that travel through [synthesize] *)

(** What [json.loads] can return, and what the fallback loop builds. A dict
    keeps its insertion order. *)
Inductive json : Type :=
| JNone
| JBool (b : bool)
| JInt (z : Z)
| JFloat (f : float)
| JStr (s : str)
| JList (l : list json)
| JDict (kv : list (str * json)).

Fixpoint dict_get (k : str) (kv : list (str * json)) : option json :=
  match kv with
  | [] => None
  | (k', v) :: kv' => if str_eqb k k' then Some v else dict_get k kv'
  end.

Definition get (k : string) (j : json) : option json :=
  match j with
  | JDict kv => dict_get (lit k) kv
  | _ => None
  end.

(** The dict literal
    [{"word": word, "startTime": start, "endTime": start + 0.2}]. *)
Definition timing_dict (word : str) (startTime endTime : float) : json :=
  JDict [ (lit "word", JStr word);
          (lit "startTime", JFloat startTime);
          (lit "endTime", JFloat endTime) ].

(** ** The fallback estimator (lines 93-104) *)

(** One iteration of [for word in text.split()]: the loop state is the list
    [timings] and the running [start]. *)
Definition fallback_step (st : list json * float) (word : str)
  : list json * float :=
  let (timings, start) := st in
  (timings ++ [timing_dict word start (start + 0.2)%float],
   (start + 0.2)%float).

Definition fallback_loop (words : list str) (st : list json * float)
  : list json * float :=
  fold_left fallback_step words st.

Definition fallback_timings (text : str) : list json :=
  fst (fallback_loop (split text) ([], 0.0%float)).

(** ** The world outside the interpreter *)

(** What examining a path finds: a file, a directory, or a failure of the
    examination itself with an [OSError] other than "no such file" (a name
    that is too long, a directory that may not be searched). *)
Inductive node : Type :=
| File (content : bytes)
| Dir
| Unreachable (err : str).

(** The disk, as the view a path string gives on it; [None] is "no such
    file". *)
Definition FS := str -> option node.

(** [Path(d) / name] for a normalised [d]. *)
Definition joinpath (d : str) (name : string) : str := d ++ lit "/" ++ lit name.

(** [p] is the directory [d] or lies below it. *)
Definition inside (d p : str) : bool :=
  str_eqb p d || startswith (d ++ lit "/") p.

Definition mkdir (d : str) (disk : FS) : FS :=
  fun p => if str_eqb p d then Some Dir else disk p.

Definition rmtree (d : str) (disk : FS) : FS :=
  fun p => if inside d p then None else disk p.

(** Outcome of [subprocess.run([exe, "--version"], ...)] with [check=False]:
    the program ran and its output was captured as text, or the call raised
    an [OSError] with the given text, or it raised an exception that is not
    an [OSError]: the output could not be decoded as text, or an argument
    was not acceptable. *)
Inductive run_outcome : Type :=
| Completed (out err : str)
| RunOSError (msg : str)
| RunUnicodeDecodeError
| RunValueError (msg : str).

(** Outcome of [subprocess.Popen(cmd, ...)]: the engine was started, or the
    call raised an [OSError] with the given text (the file found cannot be
    executed, say), or a [ValueError] for an argument that is not
    acceptable. *)
Inductive launch_outcome : Type :=
| Launched
| LaunchOSError (msg : str)
| LaunchValueError (msg : str).

(** Outcome of [stdout.readline()]; [Line []] is end of input. *)
Inductive reply : Type :=
| Line (l : str)
| ReplyBrokenPipe.

Inductive event : Type :=
| EvPrint (cmd : list str)
| EvWhich (exe : str)
| EvPopen (cmd : list str)
| EvRun (cmd : list str)
| EvPoll
| EvStderrRead
| EvMkdtemp (d : str)
| EvStdinWrite (line : str)
| EvReadline
| EvExists (p : str)
| EvReadText (p : str)
| EvReadBytes (p : str)
| EvRmtree (d : str)
| EvTerminate
| EvWait (timeout : Z).

Record World : Type := mkWorld {
  fs : FS;
  trace : list event;                       (* primitives performed so far *)
  which : str -> bool;                      (* shutil.which finds the name *)
  run_version : str -> run_outcome;         (* the --version probe *)
  returncode : option Z;                    (* what poll() answers *)
  stderr_pending : str;                     (* what stderr.read() returns *)
  sent : list str;                          (* lines the engine has received *)
  accepts : list str -> str -> bool;        (* write+flush reaches the engine *)
  replies : list str -> FS -> reply * FS;   (* the engine's answer and what it
                                               did to the disk meanwhile *)
  tmp_name : str;                           (* the name mkdtemp picks *)
  exit_on_sigterm : option Z;               (* exit status within the wait *)
  launch : list str -> launch_outcome        (* what Popen does *)
}.

Definition log (e : event) (w : World) : World :=
  mkWorld (fs w) (trace w ++ [e]) (which w) (run_version w) (returncode w)
          (stderr_pending w) (sent w) (accepts w) (replies w) (tmp_name w)
          (exit_on_sigterm w) (launch w).

Definition set_fs (disk : FS) (w : World) : World :=
  mkWorld disk (trace w) (which w) (run_version w) (returncode w)
          (stderr_pending w) (sent w) (accepts w) (replies w) (tmp_name w)
          (exit_on_sigterm w) (launch w).

Definition set_stderr_pending (s : str) (w : World) : World :=
  mkWorld (fs w) (trace w) (which w) (run_version w) (returncode w)
          s (sent w) (accepts w) (replies w) (tmp_name w)
          (exit_on_sigterm w) (launch w).

Definition set_sent (l : list str) (w : World) : World :=
  mkWorld (fs w) (trace w) (which w) (run_version w) (returncode w)
          (stderr_pending w) l (accepts w) (replies w) (tmp_name w)
          (exit_on_sigterm w) (launch w).

Definition set_returncode (rc : option Z) (w : World) : World :=
  mkWorld (fs w) (trace w) (which w) (run_version w) rc
          (stderr_pending w) (sent w) (accepts w) (replies w) (tmp_name w)
          (exit_on_sigterm w) (launch w).

(** ** Exceptions and the method monad *)

Inductive exn : Type :=
| RuntimeError (msg : str)
| BrokenPipeError
| AttributeError (msg : str)
| FileNotFoundError (path : str)
| IsADirectoryError (path : str)
| UnicodeDecodeError
| JSONDecodeError
| TimeoutExpired
| OSError (msg : str)
| ValueError (msg : str).

Inductive result (A : Type) : Type :=
| Ok (a : A)
| Raise (e : exn).
Arguments Ok {A} a.
Arguments Raise {A} e.

Definition M (A : Type) : Type := World -> result A * World.

Definition ret {A} (a : A) : M A := fun w => (Ok a, w).
Definition raise {A} (e : exn) : M A := fun w => (Raise e, w).
Definition bind {A B} (c : M A) (k : A -> M B) : M B :=
  fun w => match c w with
           | (Ok a, w') => k a w'
           | (Raise e, w') => (Raise e, w')
           end.

Declare Scope py_scope.
Delimit Scope py_scope with py.
Notation "x <- c ;; k" := (bind c (fun x => k))
  (at level 61, c at next level, right associativity) : py_scope.
Notation "c ;;; k" := (bind c (fun _ => k))
  (at level 61, right associativity) : py_scope.
Open Scope py_scope.

(** [try: body except BrokenPipeError: handler] *)
Definition try_except_BrokenPipeError {A} (body handler : M A) : M A :=
  fun w => match body w with
           | (Raise BrokenPipeError, w') => handler w'
           | r => r
           end.

(** [with tempfile.TemporaryDirectory() as tmpdir: body]: the directory is
    made on entry, under the name the world picks, and removed with
    everything below it when the block is left, by return or by exception. *)
Definition with_TemporaryDirectory {A} (body : str -> M A) : M A :=
  fun w =>
    let d := tmp_name w in
    let w1 := log (EvMkdtemp d) (set_fs (mkdir d (fs w)) w) in
    let (r, w2) := body d w1 in
    (r, log (EvRmtree d) (set_fs (rmtree d (fs w2)) w2)).

(** *** Primitives *)

Definition subprocess_run (exe : str) : M run_outcome :=
  fun w => (Ok (run_version w exe), log (EvRun [exe; lit "--version"]) w).

Definition poll : M (option Z) :=
  fun w => (Ok (returncode w), log EvPoll w).

Definition stderr_read : M str :=
  fun w => (Ok (stderr_pending w), log EvStderrRead (set_stderr_pending [] w)).

(** [stdin.write(line); stdin.flush()] *)
Definition stdin_write_flush (line : str) : M unit :=
  fun w => if accepts w (sent w) line
           then (Ok tt, log (EvStdinWrite line) (set_sent (sent w ++ [line]) w))
           else (Raise BrokenPipeError, log (EvStdinWrite line) w).

Definition stdout_readline : M str :=
  fun w => match replies w (sent w) (fs w) with
           | (Line l, disk) => (Ok l, log EvReadline (set_fs disk w))
           | (ReplyBrokenPipe, disk) =>
               (Raise BrokenPipeError, log EvReadline (set_fs disk w))
           end.

(** [Path(p).exists()]: false for "no such file", and the [OSError] itself
    when the examination fails otherwise. *)
Definition path_exists (p : str) : M bool :=
  fun w => (match fs w p with
            | Some (Unreachable err) => Raise (OSError err)
            | Some _ => Ok true
            | None => Ok false
            end, log (EvExists p) w).

Definition read_bytes (p : str) : M bytes :=
  fun w => (match fs w p with
            | Some (File b) => Ok b
            | Some Dir => Raise (IsADirectoryError p)
            | Some (Unreachable err) => Raise (OSError err)
            | None => Raise (FileNotFoundError p)
            end, log (EvReadBytes p) w).

Definition process_terminate : M unit :=
  fun w => (Ok tt, log EvTerminate w).

(** [process.wait(timeout=5)] after the signal. *)
Definition process_wait (timeout : Z) : M Z :=
  fun w => match exit_on_sigterm w with
           | Some rc => (Ok rc, log (EvWait timeout) (set_returncode (Some rc) w))
           | None => (Raise TimeoutExpired, log (EvWait timeout) w)
           end.

(** ** class PiperWrapper *)

(** A [subprocess.Popen] object: which of its three pipes are attached. *)
Record Popen : Type := mkPopen {
  stdin : bool;
  stdout : bool;
  stderr : bool
}.

Record PiperWrapper : Type := mkPiperWrapper {
  executable : str;
  process : option Popen
}.

(** The value [synthesize] returns. *)
Record Synthesis : Type := mkSynthesis {
  audioContent : str;
  mimeType : str;
  timings : json
}.

(** [cmd.extend([flag, value])] under [if value:], for a [str | None]
    value: nothing is added for [None] and for the empty string. *)
Definition opt_arg (flag : string) (value : option str) : list str :=
  match value with
  | Some (c :: v) => [lit flag; c :: v]
  | _ => []
  end.

Definition __init__ (executable : str) (model config : option str)
  : M PiperWrapper :=
  fun w =>
    let cmd := [executable] ++ opt_arg "--model" model
               ++ opt_arg "--config" config ++ [lit "--json-input"] in
    let w1 := log (EvWhich executable) (log (EvPrint cmd) w) in
    if which w executable
    then match launch w cmd with
         | Launched =>
             (Ok (mkPiperWrapper executable (Some (mkPopen true true true))),
              log (EvPopen cmd) w1)
         | LaunchOSError err => (Raise (OSError err), log (EvPopen cmd) w1)
         | LaunchValueError err =>
             (Raise (ValueError err), log (EvPopen cmd) w1)
         end
    else (Ok (mkPiperWrapper executable None), w1).

Definition _get_error_message (self : PiperWrapper) : M str :=
  r <- subprocess_run (executable self) ;;
  match r with
  | Completed out err =>
      let msg := match strip err with [] => strip out | m => m end in
      ret (match msg with [] => lit "Piper executable not found" | m => m end)
  | RunOSError exc => ret exc
  | RunUnicodeDecodeError => raise UnicodeDecodeError
  | RunValueError msg => raise (ValueError msg)
  end.

Definition terminate (self : PiperWrapper) : M unit :=
  match process self with
  | None =>
      raise (AttributeError (lit "'NoneType' object has no attribute 'poll'"))
  | Some _ =>
      rc <- poll ;;
      match rc with
      | None => process_terminate ;;; (_ <- process_wait 5 ;; ret tt)
      | Some _ => ret tt
      end
  end.

(** Library functions the method calls; their results are not interpreted
    here. *)
Class Library : Type := {
  json_dumps : json -> str;            (* json.dumps *)
  json_loads : str -> option json;     (* json.loads; None: it raises *)
  decode : bytes -> option str;        (* text decoding in read_text *)
  b64encode : bytes -> str             (* b64encode(..).decode("ascii") *)
}.

Section Synthesize.

Context {lib : Library}.

Definition read_text (p : str) : M str :=
  fun w => (match fs w p with
            | Some (File b) =>
                match decode b with
                | Some s => Ok s
                | None => Raise UnicodeDecodeError
                end
            | Some Dir => Raise (IsADirectoryError p)
            | Some (Unreachable err) => Raise (OSError err)
            | None => Raise (FileNotFoundError p)
            end, log (EvReadText p) w).

(** [self.process.stderr.read() if self.process.stderr else ""] *)
Definition read_stderr_of (proc : Popen) : M str :=
  if stderr proc then stderr_read else ret [].

(** Lines 56-79 of the [with] block: write the request line, read the
    response line. *)
Definition exchange (proc : Popen) (text tmpdir : str) : M str :=
  let out_wav := joinpath tmpdir "output.wav" in
  let request :=
    json_dumps (JDict [(lit "text", JStr text);
                       (lit "output_file", JStr out_wav)]) in
  try_except_BrokenPipeError
    (stdin_write_flush (request ++ newline))
    (err <- read_stderr_of proc ;;
     raise (RuntimeError (lit "Piper pipe broken: " ++ strip err))) ;;;
  try_except_BrokenPipeError
    stdout_readline
    (err <- read_stderr_of proc ;;
     raise (RuntimeError (lit "Piper pipe broken: " ++ strip err))).

(** Lines 80-108 of the [with] block: judge the response line, pick the
    timings, read the audio. [estimate] stands for the fallback loop of
    the [else] branch. *)
Definition collect (estimate : str -> list json) (proc : Popen)
           (text tmpdir response_line : str) : M (str * json) :=
  let out_wav := joinpath tmpdir "output.wav" in
  let timings_path := joinpath tmpdir "timings.json" in
  match response_line with
  | [] =>
      err <- read_stderr_of proc ;;
      raise (RuntimeError (lit "Piper failed: " ++ err))
  | _ =>
      let resp_path := strip response_line in
      missing <- match resp_path with
                 | [] => ret false
                 | _ => (e <- path_exists resp_path ;; ret (negb e))
                 end ;;
      if missing
      then raise (RuntimeError (lit "Piper error: " ++ resp_path))
      else
        has_timings <- path_exists timings_path ;;
        timings <- (if has_timings
                    then
                      content <- read_text timings_path ;;
                      match json_loads content with
                      | Some j => ret j
                      | None => raise JSONDecodeError
                      end
                    else ret (JList (estimate text))) ;;
        audio <- read_bytes out_wav ;;
        ret (b64encode audio, timings)
  end.

(** The body of the [with] block (lines 53-108). *)
Definition synthesize_block (estimate : str -> list json)
           (proc : Popen) (text : str) (tmpdir : str) : M (str * json) :=
  response_line <- exchange proc text tmpdir ;;
  collect estimate proc text tmpdir response_line.

Definition synthesize_with (estimate : str -> list json)
           (self : PiperWrapper) (text : str) : M Synthesis :=
  match process self with
  | None =>
      msg <- _get_error_message self ;;
      raise (RuntimeError msg)
  | Some proc =>
      rc <- poll ;;
      match rc with
      | Some _ =>
          err <- read_stderr_of proc ;;
          raise (RuntimeError (lit "Piper terminated: " ++ strip err))
      | None =>
          if negb (stdin proc) || negb (stdout proc)
          then raise (RuntimeError (lit "Piper process not started correctly"))
          else
            r <- with_TemporaryDirectory
                   (synthesize_block estimate proc text) ;;
            ret (mkSynthesis (fst r) (lit "audio/wav") (snd r))
      end
  end.

(** [PiperWrapper.synthesize] *)
Definition synthesize : PiperWrapper -> str -> M Synthesis :=
  synthesize_with fallback_timings.

(** The line written to the engine for [text] when the scratch directory
    is [tmpdir]. *)
Definition request_line (text tmpdir : str) : str :=
  json_dumps (JDict [(lit "text", JStr text);
                     (lit "output_file", JStr (joinpath tmpdir "output.wav"))])
  ++ newline.

(** All three precondition checks pass: there is a process [proc], it
    is running, and its stdin and stdout are attached. *)
Definition ready (self : PiperWrapper) (proc : Popen) (w : World) : Prop :=
  process self = Some proc /\ returncode w = None
  /\ stdin proc = true /\ stdout proc = true.

(** The world in which the [with] block starts: polled, scratch directory
    made. *)
Definition entered (w : World) : World :=
  log (EvMkdtemp (tmp_name w))
      (set_fs (mkdir (tmp_name w) (fs w)) (log EvPoll w)).

(** The engine takes the request for [text] and answers with the non-empty
    line [line], leaving the disk as [disk]. *)
Definition answered (w : World) (text line : str) (disk : FS) : Prop :=
  accepts w (sent w) (request_line text (tmp_name w)) = true
  /\ replies w (sent w ++ [request_line text (tmp_name w)])
             (mkdir (tmp_name w) (fs w)) = (Line line, disk)
  /\ line <> [].

(** The world in which the response line has been read. *)
Definition replied (w : World) (text : str) (disk : FS) : World :=
  log EvReadline
      (set_fs disk
         (log (EvStdinWrite (request_line text (tmp_name w)))
              (set_sent (sent w ++ [request_line text (tmp_name w)])
                        (entered w)))).

(** The answer passes the check of line 87: it trims to nothing or names
    something on the disk. *)
Definition names_a_file (line : str) (disk : FS) : Prop :=
  strip line = []
  \/ match disk (strip line) with
     | Some (File _) | Some Dir => True
     | Some (Unreachable _) | None => False
     end.

End Synthesize.

(** ** Reading the properties *)

(** The number of whitespace-separated words of a text, counted directly: a
    word starts at every non-space code point that begins the text or
    follows a space. *)
Fixpoint count_word_starts (after_space : bool) (s : str) : nat :=
  match s with
  | [] => 0
  | c :: s' =>
      (if after_space && negb (isspace c) then 1 else 0)
      + count_word_starts (isspace c) s'
  end.

Definition word_count (s : str) : nat := count_word_starts true s.

(** A word: not empty, and free of whitespace. *)
Definition nonblank (word : str) : Prop :=
  word <> [] /\ forallb (fun c => negb (isspace c)) word = true.

(** The entries the fallback loop appends for [words] when it starts at
    [start]. *)
Fixpoint entries_from (start : float) (words : list str) : list json :=
  match words with
  | [] => []
  | word :: rest =>
      timing_dict word start (start + 0.2)%float
      :: entries_from (start + 0.2)%float rest
  end.

(** [startTime < endTime] on a timing entry, with Python's float [<]. *)
Definition start_before_end (e : json) : Prop :=
  exists s t, get "startTime" e = Some (JFloat s)
              /\ get "endTime" e = Some (JFloat t)
              /\ ltb s t = true.

(** [endTime - startTime == 0.2] on a timing entry, with Python's float [-]
    and [==]. *)
Definition duration_is_02 (e : json) : Prop :=
  exists s t, get "startTime" e = Some (JFloat s)
              /\ get "endTime" e = Some (JFloat t)
              /\ PrimFloat.eqb (t - s)%float 0.2%float = true.

(** A computation only adds to the trace of primitives. *)
Definition extends {A} (c : M A) : Prop :=
  forall w, exists evs, trace (snd (c w)) = trace w ++ evs.

(** Running the clock of the loop: after each step the pair holds the next
    [start] and whether every step so far had [start < start + 0.2]. *)
Definition clock_step (st : float * bool) : float * bool :=
  let (start, ok) := st in
  ((start + 0.2)%float, if ok then ltb start (start + 0.2)%float else false).

Definition clock_ok (n : N) (start : float) : bool :=
  snd (N.iter n clock_step (start, true)).

(** The number of words up to which the clock has been run. *)
Definition checked_words : N := 1000000.

(** The value of [start] when the loop reaches its word number [i]
    (counting from 0). *)
Definition start_at (i : nat) : float :=
  Nat.iter i (fun start => (start + 0.2)%float) 0.0%float.

(** Entry [i] starts before it ends: adding 0.2 to its start gives more. *)
Definition advances (i : nat) : bool :=
  ltb (start_at i) (start_at i + 0.2)%float.

(** [n] is the first entry at which adding 0.2 no longer gives more. *)
Definition first_stall (n : nat) : Prop :=
  (forall i, i < n -> advances i = true) /\ advances n = false.

(** A place for every binary64 value on a line of integers, in the order of
    the float comparison: the exponent, then the mantissa. *)
Definition rank_top : Z := 2047 * 2 ^ 53.

Definition rank (x : SpecFloat.spec_float) : Z :=
  match x with
  | SpecFloat.S754_nan => 0
  | SpecFloat.S754_zero _ => 0
  | SpecFloat.S754_infinity false => rank_top
  | SpecFloat.S754_infinity true => - rank_top
  | SpecFloat.S754_finite false m e => (e + 1075) * 2 ^ 53 + Zpos m
  | SpecFloat.S754_finite true m e => - ((e + 1075) * 2 ^ 53 + Zpos m)
  end.

(** A text of [n] one-letter words. *)
Definition words_text (n : nat) : str := concat (repeat (lit "a ") n).

(** ** Sample library functions and worlds

    Concrete stand-ins on which the methods can be run. Each agrees with the
    Python function it stands for on the inputs the samples use. *)

Definition quote (s : str) : str := [34%N] ++ s ++ [34%N].

Fixpoint join (sep : str) (l : list str) : str :=
  match l with
  | [] => []
  | [x] => x
  | x :: rest => x ++ sep ++ join sep rest
  end.

(** [json.dumps] on a dict of strings none of whose characters needs an
    escape. *)
Definition plain_json_dumps (j : json) : str :=
  match j with
  | JDict kv =>
      lit "{"
      ++ join (lit ", ")
           (map (fun kv => quote (fst kv) ++ lit ": "
                           ++ match snd kv with
                              | JStr s => quote s
                              | _ => lit "null"
                              end) kv)
      ++ lit "}"
  | _ => lit "null"
  end.

(** A sidecar text whose single entry ends before it starts. *)
Definition reversed_sidecar_text : str :=
  lit "[{" ++ quote (lit "word") ++ lit ": " ++ quote (lit "a") ++ lit ", "
  ++ quote (lit "startTime") ++ lit ": 1.0, "
  ++ quote (lit "endTime") ++ lit ": 0.5}]".

Definition reversed_sidecar : json :=
  JList [timing_dict (lit "a") 1.0%float 0.5%float].

(** A sidecar text with one well-formed entry. *)
Definition aligned_sidecar_text : str :=
  lit "[{" ++ quote (lit "word") ++ lit ": " ++ quote (lit "hello") ++ lit ", "
  ++ quote (lit "startTime") ++ lit ": 0.0, "
  ++ quote (lit "endTime") ++ lit ": 0.5}]".

Definition aligned_sidecar : json :=
  JList [timing_dict (lit "hello") 0.0%float 0.5%float].

(** [json.loads] on the two sidecar texts above. *)
Definition sample_json_loads (s : str) : option json :=
  if str_eqb s reversed_sidecar_text then Some reversed_sidecar
  else if str_eqb s aligned_sidecar_text then Some aligned_sidecar
  else None.

(** Decoding of a file that holds ASCII only. *)
Definition ascii_decode (b : bytes) : option str :=
  if forallb (fun x => (Byte.to_N x <? 128)%N) b
  then Some (map Byte.to_N b)
  else None.

Definition ascii_encode (s : str) : bytes :=
  map (fun c => match Byte.of_N c with Some b => b | None => Byte.x00 end) s.

Definition b64_digit (n : N) : char :=
  nth (N.to_nat n)
      (lit "ABCDEFGHIJKLMNOPQRSTUVWXYZabcdefghijklmnopqrstuvwxyz0123456789+/")
      0%N.

Fixpoint b64_of (l : list N) : str :=
  match l with
  | [] => []
  | [a] => [b64_digit (a / 4); b64_digit (a mod 4 * 16); 61; 61]%N
  | [a; b] =>
      [b64_digit (a / 4); b64_digit (a mod 4 * 16 + b / 16);
       b64_digit (b mod 16 * 4); 61]%N
  | a :: b :: c :: rest =>
      ([b64_digit (a / 4); b64_digit (a mod 4 * 16 + b / 16);
        b64_digit (b mod 16 * 4 + c / 64); b64_digit (c mod 64)]
       ++ b64_of rest)%N
  end.

(** [base64.b64encode(b).decode("ascii")] *)
Definition base64 (b : bytes) : str := b64_of (map Byte.to_N b).

Definition empty_disk : FS := fun _ => None.

Definition put (p : str) (n : node) (disk : FS) : FS :=
  fun q => if str_eqb q p then Some n else disk q.

Definition scratch : str := lit "/tmp/tmpk3v9q2".
Definition scratch_wav : str := joinpath scratch "output.wav".
Definition scratch_timings : str := joinpath scratch "timings.json".

(** The first bytes of a WAV file. *)
Definition riff : bytes := [Byte.x52; Byte.x49; Byte.x46; Byte.x46].

(** A world with an empty disk, in which the executable is found and the
    engine takes every line; the rest is given. *)
Definition engine_world (probe : run_outcome) (rc : option Z) (err : str)
           (answer : list str -> FS -> reply * FS) : World :=
  mkWorld empty_disk [] (fun _ => true) (fun _ => probe) rc err []
          (fun _ _ => true) answer scratch (Some 0%Z) (fun _ => Launched).

(** The disk once the scratch directory is made and the audio written. *)
Definition audio_disk : FS :=
  put scratch_wav (File riff) (mkdir scratch empty_disk).

(** The same with a sidecar holding [text]. *)
Definition sidecar_disk (text : str) : FS :=
  put scratch_timings (File (ascii_encode text)) audio_disk.

(** The engine writes the audio and echoes its path. *)
Definition w_echo : World :=
  engine_world (Completed [] []) None []
    (fun _ disk => (Line (scratch_wav ++ newline),
                    put scratch_wav (File riff) disk)).

(** The engine also writes a sidecar with the given text. *)
Definition w_sidecar (text : str) : World :=
  engine_world (Completed [] []) None []
    (fun _ disk => (Line (scratch_wav ++ newline),
                    put scratch_timings (File (ascii_encode text))
                        (put scratch_wav (File riff) disk))).


(** The engine answers with an error text and writes nothing. *)
Definition w_error : World :=
  engine_world (Completed [] []) None []
    (fun _ disk => (Line (lit "ERROR: bad model" ++ newline), disk)).


(** The engine has closed its end of the pipe, leaving a diagnostic. *)
Definition w_closed : World :=
  mkWorld empty_disk [] (fun _ => true) (fun _ => Completed [] []) None
          (lit "out of memory" ++ newline) [] (fun _ _ => false)
          (fun _ disk => (Line [], disk)) scratch None (fun _ => Launched).

(** The executable is not installed. *)
Definition w_missing : World :=
  mkWorld empty_disk [] (fun _ => false)
          (fun _ => RunOSError
                      (lit "[Errno 2] No such file or directory: 'piper'"))
          None [] [] (fun _ _ => false) (fun _ disk => (Line [], disk))
          scratch None (fun _ => Launched).

(** The probe prints bytes that do not decode as text. *)
Definition w_probe_undecodable : World :=
  mkWorld empty_disk [] (fun _ => false) (fun _ => RunUnicodeDecodeError)
          None [] [] (fun _ _ => false) (fun _ disk => (Line [], disk))
          scratch None (fun _ => Launched).


(** The executable is found but cannot be executed. *)
Definition w_exec_format : World :=
  mkWorld empty_disk [] (fun _ => true) (fun _ => Completed [] []) None []
          [] (fun _ _ => true) (fun _ disk => (Line [], disk)) scratch None
          (fun _ =>
             LaunchOSError (lit "[Errno 8] Exec format error: 'piper'")).




(** The probe prints a diagnostic line on stderr. *)
Definition w_probe_stderr : World :=
  engine_world (Completed (lit "usage" ++ newline) (lit "boom" ++ newline))
               None [] (fun _ disk => (Line [], disk)).

Definition all_pipes : Popen := mkPopen true true true.

Definition piper_up : PiperWrapper :=
  mkPiperWrapper (lit "piper") (Some all_pipes).


Definition piper_missing : PiperWrapper :=
  mkPiperWrapper (lit "piper") None.

Definition sample_library : Library :=
  Build_Library plain_json_dumps sample_json_loads ascii_decode base64.

(** [synthesize] with the sample library functions. *)
Definition run_synthesize : PiperWrapper -> str -> M Synthesis :=
  synthesize (lib := sample_library).

(** ** The dummy response (lines 116-142) *)

(** The bytes [_fake_response] writes: a 44-byte RIFF/WAVE header. *)
Definition wav_header : bytes :=
  [Byte.x52; Byte.x49; Byte.x46; Byte.x46; Byte.x24; Byte.x00; Byte.x00;
   Byte.x00; Byte.x57; Byte.x41; Byte.x56; Byte.x45;
   Byte.x66; Byte.x6d; Byte.x74; Byte.x20; Byte.x10; Byte.x00; Byte.x00;
   Byte.x00; Byte.x01; Byte.x00; Byte.x01; Byte.x00;
   Byte.x44; Byte.xac; Byte.x00; Byte.x00; Byte.x88; Byte.x58; Byte.x01;
   Byte.x00; Byte.x02; Byte.x00; Byte.x10; Byte.x00;
   Byte.x64; Byte.x61; Byte.x74; Byte.x61; Byte.x00; Byte.x00; Byte.x00;
   Byte.x00].

Definition unlink (p : str) (disk : FS) : FS :=
  fun q => if str_eqb q p then None else disk q.

(** [with tempfile.NamedTemporaryFile(suffix=...) as tmp: body]: an empty
    file is made under the name the world picks, followed by the suffix, and
    deleted when the block is left. The block is given [tmp.name]. *)
Definition with_NamedTemporaryFile {A} (suffix : string) (body : str -> M A)
  : M A :=
  fun w =>
    let name := tmp_name w ++ lit suffix in
    let w1 := set_fs (put name (File []) (fs w)) w in
    let (r, w2) := body name w1 in
    (r, set_fs (unlink name (fs w2)) w2).

(** [tmp.write(data); tmp.flush()] on the file open under [name]. *)
Definition file_write_flush (name : str) (data : bytes) : M unit :=
  fun w => (Ok tt,
            match fs w name with
            | Some (File old) => set_fs (put name (File (old ++ data)) (fs w)) w
            | _ => w
            end).

Section FakeResponse.

Context {lib : Library}.

Definition _fake_response (self : PiperWrapper) (text : str) : M Synthesis :=
  let words := split text in
  let timings := fst (fallback_loop words ([], 0.0%float)) in
  audio <- with_NamedTemporaryFile ".wav"
             (fun name =>
                file_write_flush name wav_header ;;;
                (content <- read_bytes name ;; ret (b64encode content))) ;;
  ret (mkSynthesis audio (lit "audio/wav") (JList timings)).

End FakeResponse.

(** ** Reading the further properties *)

(** A computation leaves the observation [f] of the world as it was. *)
Definition preserves {A X} (f : World -> X) (c : M A) : Prop :=
  forall w, f (snd (c w)) = f w.

(** A computation only adds events that satisfy [P] to the trace. *)
Definition emits {A} (P : event -> Prop) (c : M A) : Prop :=
  forall w, exists evs, trace (snd (c w)) = trace w ++ evs /\ Forall P evs.

(** What the [with] block of [synthesize] may do when the scratch directory
    is [d]: talk over the pipes, test paths, and read the two scratch
    files. *)
Definition block_event (d : str) (e : event) : Prop :=
  match e with
  | EvStdinWrite _ | EvReadline | EvStderrRead | EvExists _ => True
  | EvReadText p => p = joinpath d "timings.json"
  | EvReadBytes p => p = joinpath d "output.wav"
  | _ => False
  end.

(** What a whole call of [synthesize] may do for the manager [self]: the
    above, the poll, the version probe, and making and removing [d]. *)
Definition synthesize_event (self : PiperWrapper) (d : str) (e : event)
  : Prop :=
  match e with
  | EvPoll => True
  | EvRun cmd => cmd = [executable self; lit "--version"]
  | EvMkdtemp d' | EvRmtree d' => d' = d
  | _ => block_event d e
  end.

(** A string with no whitespace at either end. *)
Definition trimmed (s : str) : Prop := lstrip s = s /\ rstrip s = s.

(** The diagnostic text a failure message carries: what is pending on
    stderr if that pipe is attached, else nothing. *)
Definition diagnostic (proc : Popen) (w : World) : str :=
  if stderr proc then stderr_pending w else [].

(** *** Further sample worlds *)



(** The engine writes the audio somewhere else and echoes that path. *)
Definition elsewhere_disk : FS :=
  put (lit "/srv/out.wav") (File riff) (mkdir scratch empty_disk).

Definition w_elsewhere : World :=
  engine_world (Completed [] []) None []
    (fun _ disk => (Line (lit "/srv/out.wav" ++ newline),
                    put (lit "/srv/out.wav") (File riff) disk)).

(** The engine echoes the scratch directory itself. *)
Definition w_echo_dir : World :=
  engine_world (Completed [] []) None []
    (fun _ disk => (Line (scratch ++ newline),
                    put scratch_wav (File riff) disk)).

(** The engine runs and ignores the termination signal. *)
Definition w_stubborn : World :=
  mkWorld empty_disk [] (fun _ => true) (fun _ => Completed [] []) None []
          [] (fun _ _ => true) (fun _ disk => (Line [], disk)) scratch None
          (fun _ => Launched).

(** The probe prints nothing but blank lines. *)
Definition w_probe_silent : World :=
  engine_world (Completed newline (newline ++ newline)) None []
    (fun _ disk => (Line [], disk)).

(** * Properties *)

(** ** Splitting and trimming *)

Lemma split_from_count (s cur : str) :
  length (split_from cur s)
  = count_word_starts (match cur with [] => true | _ => false end) s
    + match cur with [] => 0 | _ => 1 end.
Proof.
  revert cur; induction s as [|c s IH]; intros cur.
  - destruct cur; reflexivity.
  - cbn [split_from count_word_starts].
    destruct (isspace c) eqn:Hc.
    + destruct cur; cbn [length]; rewrite (IH []); cbn; lia.
    + rewrite (IH (c :: cur)). destruct cur; cbn; lia.
Qed.

(** [text.split()] has as many items as the text has word starts. *)
Lemma split_length_word_count (s : str) : length (split s) = word_count s.
Proof. unfold split, word_count. rewrite split_from_count. lia. Qed.

Lemma forallb_rev {A} (f : A -> bool) (l : list A) :
  forallb f (rev l) = forallb f l.
Proof.
  induction l as [|a l IH]; [reflexivity|].
  cbn. rewrite forallb_app, IH. cbn. rewrite andb_true_r. apply andb_comm.
Qed.

Lemma split_from_nonblank (s cur : str) :
  forallb (fun c => negb (isspace c)) cur = true ->
  Forall nonblank (split_from cur s).
Proof.
  revert cur; induction s as [|c s IH]; intros cur Hcur.
  - destruct cur as [|a cur]; constructor; [|constructor].
    split.
    + intro E. apply (f_equal (@length _)) in E.
      rewrite length_rev in E. discriminate.
    + now rewrite forallb_rev.
  - cbn [split_from]. destruct (isspace c) eqn:Hc.
    + destruct cur as [|a cur]; [now apply IH|].
      constructor; [|now apply IH].
      split.
      * intro E. apply (f_equal (@length _)) in E.
        rewrite length_rev in E. discriminate.
      * now rewrite forallb_rev.
    + apply IH. cbn. now rewrite Hc.
Qed.

(** Every word of [text.split()] is non-empty and free of whitespace. *)
Lemma split_words_nonblank (s : str) : Forall nonblank (split s).
Proof. now apply split_from_nonblank. Qed.

Lemma split_from_concat (s cur : str) :
  concat (split_from cur s)
  = rev cur ++ filter (fun c => negb (isspace c)) s.
Proof.
  revert cur; induction s as [|c s IH]; intros cur.
  - destruct cur; cbn; now rewrite ?app_nil_r.
  - cbn [split_from filter]. destruct (isspace c) eqn:Hc; cbn [negb].
    + destruct cur as [|a cur]; cbn [concat]; now rewrite (IH []).
    + rewrite (IH (c :: cur)). cbn [rev]. now rewrite <- app_assoc.
Qed.

(** The words, put together again, are the text without its whitespace. *)
Lemma split_concat (s : str) :
  concat (split s) = filter (fun c => negb (isspace c)) s.
Proof. unfold split. now rewrite split_from_concat. Qed.

(** A text of whitespace only has no words. *)
Lemma split_blank (s : str) : forallb isspace s = true -> split s = [].
Proof.
  unfold split. induction s as [|c s IH]; [reflexivity|].
  cbn. intros [Hc Hs]%andb_prop. rewrite Hc. now apply IH.
Qed.

(** ** The fallback estimator *)

Lemma fallback_loop_entries (words : list str) (acc : list json) (start : float) :
  fst (fallback_loop words (acc, start)) = acc ++ entries_from start words.
Proof.
  revert acc start; induction words as [|word rest IH]; intros acc start.
  - cbn. now rewrite app_nil_r.
  - cbn [fallback_loop fold_left fallback_step entries_from].
    change (fold_left fallback_step rest ?st) with (fallback_loop rest st).
    rewrite IH. now rewrite <- app_assoc.
Qed.

Lemma fallback_timings_entries (text : str) :
  fallback_timings text = entries_from 0.0%float (split text).
Proof. unfold fallback_timings. now rewrite fallback_loop_entries. Qed.

Lemma get_word_timing_dict word s t :
  get "word" (timing_dict word s t) = Some (JStr word).
Proof. reflexivity. Qed.

Lemma get_startTime_timing_dict word s t :
  get "startTime" (timing_dict word s t) = Some (JFloat s).
Proof. reflexivity. Qed.

Lemma get_endTime_timing_dict word s t :
  get "endTime" (timing_dict word s t) = Some (JFloat t).
Proof. reflexivity. Qed.

Lemma entries_from_length (words : list str) (start : float) :
  length (entries_from start words) = length words.
Proof.
  revert start; induction words as [|word rest IH]; intros start;
    cbn; [reflexivity | now rewrite IH].
Qed.

Lemma entries_from_words (words : list str) (start : float) :
  map (get "word") (entries_from start words)
  = map (fun word => Some (JStr word)) words.
Proof.
  revert start; induction words as [|word rest IH]; intros start;
    [reflexivity|].
  cbn [entries_from map]. now rewrite IH, get_word_timing_dict.
Qed.

Lemma entries_from_nth (words : list str) (start : float) (i : nat) (e : json) :
  nth_error (entries_from start words) i = Some e ->
  exists word s, e = timing_dict word s (s + 0.2)%float
                 /\ (i = 0 -> s = start).
Proof.
  revert start i; induction words as [|word rest IH]; intros start i He.
  - destruct i; discriminate.
  - destruct i as [|i]; cbn in He.
    + injection He as <-. now exists word, start.
    + destruct (IH _ _ He) as (word' & s & -> & _).
      exists word', s. split; [reflexivity | discriminate].
Qed.

Lemma entries_from_contiguous (words : list str) (start : float) (i : nat)
      (a b : json) :
  nth_error (entries_from start words) i = Some a ->
  nth_error (entries_from start words) (S i) = Some b ->
  get "startTime" b = get "endTime" a.
Proof.
  revert start i; induction words as [|word rest IH]; intros start i Ha Hb.
  - destruct i; discriminate.
  - destruct i as [|i]; cbn in Ha, Hb.
    + injection Ha as <-. destruct rest as [|word' rest']; [discriminate|].
      cbn in Hb. injection Hb as <-. reflexivity.
    + now apply (IH _ _ Ha Hb).
Qed.

(** Once a step fails to advance, the flag stays down. *)
Lemma clock_stuck (k : nat) (s : float) :
  snd (Nat.iter k clock_step (s, false)) = false.
Proof.
  induction k as [|k IH]; [reflexivity|].
  simpl Nat.iter. destruct (Nat.iter k clock_step (s, false)) as [s' b].
  simpl in IH. subst b. reflexivity.
Qed.

Lemma entries_from_ordered_upto (words : list str) (start : float) (k : nat) :
  length words <= k ->
  snd (Nat.iter k clock_step (start, true)) = true ->
  Forall start_before_end (entries_from start words).
Proof.
  revert start k; induction words as [|word rest IH]; intros start k Hk Hok.
  - constructor.
  - destruct k as [|k]; [cbn in Hk; lia|].
    rewrite Nat.iter_succ_r in Hok. cbn [clock_step] in Hok.
    destruct (ltb start (start + 0.2)%float) eqn:Hlt.
    + cbn [entries_from]. constructor.
      * exists start, (start + 0.2)%float. now repeat split.
      * apply (IH _ k); [cbn in Hk; lia | exact Hok].
    + now rewrite clock_stuck in Hok.
Qed.

Lemma entries_from_ordered (words : list str) (start : float) (n : N) :
  clock_ok n start = true ->
  (N.of_nat (length words) <= n)%N ->
  Forall start_before_end (entries_from start words).
Proof.
  unfold clock_ok. rewrite N2Nat.inj_iter. intros Hok Hn.
  apply (entries_from_ordered_upto _ _ (N.to_nat n)); [lia | exact Hok].
Qed.

Lemma clock_checked : clock_ok checked_words 0.0%float = true.
Proof. vm_compute. reflexivity. Qed.

(** *** Where the order is kept, and that it ends *)

Lemma clock_start_at (k : nat) :
  fst (Nat.iter k clock_step (0.0%float, true)) = start_at k.
Proof.
  induction k as [|k IH]; [reflexivity|].
  simpl Nat.iter. unfold start_at in *. simpl Nat.iter.
  destruct (Nat.iter k clock_step (0.0%float, true)) as [s b].
  cbn in IH |- *. now rewrite IH.
Qed.

Lemma clock_advances (k : nat) :
  snd (Nat.iter k clock_step (0.0%float, true)) = true ->
  forall i, i < k -> advances i = true.
Proof.
  induction k as [|k IH]; intros Hok i Hi; [lia|].
  simpl Nat.iter in Hok. pose proof (clock_start_at k) as Hs.
  destruct (Nat.iter k clock_step (0.0%float, true)) as [s b].
  cbn in Hok, Hs, IH. destruct b; [|discriminate].
  destruct (Nat.eq_dec i k) as [-> | Hne].
  - unfold advances. now rewrite <- Hs.
  - apply IH; [reflexivity | lia].
Qed.

Lemma clock_ok_advances (n : N) :
  clock_ok n 0.0%float = true ->
  forall i, (N.of_nat i < n)%N -> advances i = true.
Proof.
  unfold clock_ok. rewrite Nnat.N2Nat.inj_iter. intros Hok i Hi.
  apply (clock_advances _ Hok). lia.
Qed.

Lemma first_stall_beyond_checked (n : nat) :
  first_stall n -> (checked_words <= N.of_nat n)%N.
Proof.
  intros [_ Hn].
  destruct (N.le_gt_cases checked_words (N.of_nat n)) as [Hle | Hgt];
    [exact Hle|].
  rewrite (clock_ok_advances checked_words clock_checked n Hgt) in Hn.
  discriminate Hn.
Qed.

Lemma digits2_pos_bound (m : positive) :
  (Zpos m < 2 ^ Zpos (SpecFloat.digits2_pos m))%Z.
Proof.
  induction m as [m IH | m IH |]; cbn [SpecFloat.digits2_pos].
  - rewrite Pos2Z.inj_succ, Z.pow_succ_r by lia. lia.
  - rewrite Pos2Z.inj_succ, Z.pow_succ_r by lia. lia.
  - reflexivity.
Qed.

Lemma bounded_finite (m : positive) (e : Z) :
  SpecFloat.bounded FloatOps.prec FloatOps.emax m e = true ->
  (-1074 <= e <= 971 /\ Zpos m < 2 ^ 53)%Z.
Proof.
  unfold SpecFloat.bounded, SpecFloat.canonical_mantissa, SpecFloat.fexp,
    SpecFloat.emin, FloatOps.prec, FloatOps.emax.
  intros [Hc He]%andb_prop. apply Z.eqb_eq in Hc. apply Z.leb_le in He.
  pose proof (digits2_pos_bound m) as Hm.
  assert (Hd : (Zpos (SpecFloat.digits2_pos m) <= 53)%Z) by lia.
  split; [lia|].
  eapply Z.lt_le_trans; [exact Hm|].
  apply Z.pow_le_mono_r; lia.
Qed.

Lemma rank_finite_pos (m : positive) (e : Z) :
  SpecFloat.bounded FloatOps.prec FloatOps.emax m e = true ->
  (0 < (e + 1075) * 2 ^ 53 + Zpos m < rank_top)%Z.
Proof.
  intros [He Hm]%bounded_finite. unfold rank_top.
  assert (H53 : (0 < 2 ^ 53)%Z) by reflexivity. nia.
Qed.

Lemma rank_bounds (x : SpecFloat.spec_float) :
  SpecFloat.valid_binary FloatOps.prec FloatOps.emax x = true ->
  (- rank_top <= rank x <= rank_top)%Z.
Proof.
  assert (Htop : (0 < rank_top)%Z) by reflexivity.
  destruct x as [s | [|] | | [|] m e]; cbn [SpecFloat.valid_binary rank];
    intros Hv; try lia; pose proof (rank_finite_pos m e Hv); lia.
Qed.

(** The float comparison climbs the line of ranks. *)
Lemma rank_lt (x y : SpecFloat.spec_float) :
  SpecFloat.valid_binary FloatOps.prec FloatOps.emax x = true ->
  SpecFloat.valid_binary FloatOps.prec FloatOps.emax y = true ->
  SpecFloat.SFltb x y = true -> (rank x < rank y)%Z.
Proof.
  assert (Htop : (0 < rank_top)%Z) by reflexivity.
  unfold SpecFloat.SFltb.
  destruct x as [sx | [|] | | [|] mx ex], y as [sy | [|] | | [|] my ey];
    cbn [SpecFloat.SFcompare SpecFloat.valid_binary rank]; intros Hx Hy H;
    try discriminate; try lia;
    try (pose proof (rank_finite_pos _ _ Hx));
    try (pose proof (rank_finite_pos _ _ Hy)); try lia.
  - apply bounded_finite in Hx, Hy.
    destruct (Z.compare_spec ex ey) as [-> | Hlt | Hgt]; try discriminate.
    + change (Pos.compare_cont Eq mx my) with (Pos.compare mx my) in H.
      destruct (Pos.compare_spec mx my); try discriminate; lia.
    + assert (H53 : (0 < 2 ^ 53)%Z) by reflexivity. nia.
  - apply bounded_finite in Hx, Hy.
    destruct (Z.compare_spec ex ey) as [-> | Hlt | Hgt]; try discriminate.
    + change (Pos.compare_cont Eq mx my) with (Pos.compare mx my) in H.
      destruct (Pos.compare_spec mx my); try discriminate; lia.
    + assert (H53 : (0 < 2 ^ 53)%Z) by reflexivity. nia.
Qed.

(** While every step advances, the rank of [start] grows by at least one a
    step. *)
Lemma rank_climbs (k : nat) :
  (forall i, i < k -> advances i = true) ->
  (Z.of_nat k - rank_top <= rank (FloatOps.Prim2SF (start_at k)))%Z.
Proof.
  induction k as [|k IH]; intros Hadv.
  - pose proof (rank_bounds _ (FloatAxioms.Prim2SF_valid (start_at 0))). lia.
  - assert (Hk : advances k = true) by (apply Hadv; lia).
    unfold advances in Hk. rewrite FloatAxioms.ltb_spec in Hk.
    apply rank_lt in Hk; try apply FloatAxioms.Prim2SF_valid.
    specialize (IH (fun i Hi => Hadv i (Nat.lt_lt_succ_r _ _ Hi))).
    change (start_at (S k)) with (start_at k + 0.2)%float. lia.
Qed.

(** There are only so many binary64 values: the steps cannot advance for
    ever. *)
Lemma advances_stops : exists n, advances n = false.
Proof.
  assert (Hdec : forall k, (forall i, i < k -> advances i = true)
                           \/ exists n, advances n = false).
  { induction k as [|k [IH | IH]]; [left; lia | | now right].
    destruct (advances k) eqn:Hk; [left | right; now exists k].
    intros i Hi. destruct (Nat.eq_dec i k) as [-> | Hne]; [exact Hk|].
    apply IH. lia. }
  destruct (Hdec (Z.to_nat (2 * rank_top + 1))) as [Hall | Hex]; [|exact Hex].
  exfalso. apply rank_climbs in Hall.
  pose proof (rank_bounds _ (FloatAxioms.Prim2SF_valid
                               (start_at (Z.to_nat (2 * rank_top + 1)))))
    as Hb.
  assert (Htop : (0 < rank_top)%Z) by reflexivity.
  rewrite Z2Nat.id in Hall by lia. lia.
Qed.

Lemma first_stall_exists : exists n, first_stall n.
Proof.
  destruct advances_stops as [n Hn].
  destruct (Wf_nat.dec_inh_nat_subset_has_unique_least_element
              (fun n => advances n = false)) as (m & [Hm Hleast] & _).
  - intros k. destruct (advances k); [right | left]; congruence.
  - now exists n.
  - exists m. split; [|exact Hm].
    intros i Hi. destruct (advances i) eqn:Hadv; [reflexivity|].
    apply Hleast in Hadv. lia.
Qed.

Lemma start_before_end_timing_dict word s t :
  start_before_end (timing_dict word s t) <-> ltb s t = true.
Proof.
  split.
  - intros (s' & t' & Hs & Ht & Hlt).
    rewrite get_startTime_timing_dict in Hs.
    rewrite get_endTime_timing_dict in Ht. congruence.
  - intros Hlt. now exists s, t.
Qed.

Lemma entries_from_at (words : list str) (k i : nat) (e : json) :
  nth_error (entries_from (start_at k) words) i = Some e ->
  exists word,
    e = timing_dict word (start_at (k + i)) (start_at (k + i) + 0.2)%float.
Proof.
  revert k i; induction words as [|word rest IH]; intros k i He.
  - destruct i; discriminate.
  - destruct i as [|i]; cbn in He.
    + injection He as <-. exists word. now rewrite Nat.add_0_r.
    + change (start_at k + 0.2)%float with (start_at (S k)) in He.
      destruct (IH _ _ He) as [word' ->]. exists word'.
      now rewrite Nat.add_succ_r.
Qed.

(** Entry [i] of the fallback sequence starts before it ends exactly when
    step [i] of the clock advances. *)
Lemma fallback_entry_advances (text : str) (i : nat) (e : json) :
  nth_error (fallback_timings text) i = Some e ->
  (start_before_end e <-> advances i = true).
Proof.
  rewrite fallback_timings_entries. intros He.
  destruct (entries_from_at _ 0 _ _ He) as [word ->].
  apply start_before_end_timing_dict.
Qed.

Lemma split_words_text (n : nat) :
  split (words_text n) = repeat (lit "a") n.
Proof.
  unfold split, words_text. induction n as [|n IH]; [reflexivity|].
  cbn [repeat concat]. change (lit "a " ++ concat (repeat (lit "a ") n))
    with (97%N :: 32%N :: concat (repeat (lit "a ") n)).
  cbn [split_from]. change (isspace 97%N) with false.
  change (isspace 32%N) with true.
  cbv iota. cbn [split_from]. change (isspace 32%N) with true.
  cbv iota. cbn [rev app]. now rewrite IH.
Qed.

Lemma fallback_timings_words_text (n : nat) :
  length (fallback_timings (words_text n)) = n.
Proof.
  now rewrite fallback_timings_entries, entries_from_length, split_words_text,
    repeat_length.
Qed.

(** A text of one word more than the first stall has an entry that does
    not start before it ends. *)
Lemma fallback_order_breaks n :
  first_stall n ->
  ~ Forall start_before_end (fallback_timings (words_text (S n))).
Proof.
  intros [_ Hn] Hall.
  destruct (nth_error (fallback_timings (words_text (S n))) n) as [e|] eqn:He.
  - rewrite Forall_forall in Hall.
    pose proof (Hall e (nth_error_In _ _ He)) as Hs.
    apply (fallback_entry_advances _ _ _ He) in Hs. congruence.
  - apply nth_error_None in He. rewrite fallback_timings_words_text in He. lia.
Qed.

Ltac run :=
  unfold bind, ret, raise, path_exists, read_bytes, read_text,
    read_stderr_of, stderr_read, poll, subprocess_run,
    try_except_BrokenPipeError, stdin_write_flush, stdout_readline,
    entered, replied;
  cbn [fs trace sent accepts replies tmp_name returncode stderr_pending
       run_version which exit_on_sigterm launch
       log set_fs set_sent set_stderr_pending set_returncode
       fst snd negb orb andb].

(** ** Running the methods *)

Section Runs.
Context {lib : Library}.

Lemma synthesize_with_ready est self proc text w :
  ready self proc w ->
  synthesize_with est self text w
  = let (r, w2) := synthesize_block est proc text (tmp_name w) (entered w) in
    (match r with
     | Ok p => Ok (mkSynthesis (fst p) (lit "audio/wav") (snd p))
     | Raise e => Raise e
     end,
     log (EvRmtree (tmp_name w)) (set_fs (rmtree (tmp_name w) (fs w2)) w2)).
Proof.
  intros (Hp & Hrc & Hin & Hout).
  unfold synthesize_with. rewrite Hp.
  unfold bind at 1. unfold poll at 1. rewrite Hrc, Hin, Hout. cbn [negb orb].
  unfold bind, with_TemporaryDirectory, entered. cbn [tmp_name log fs set_fs].
  destruct (synthesize_block _ _ _ _ _) as [[p|e] w2]; reflexivity.
Qed.

Lemma exchange_answered proc text w line disk :
  answered w text line disk ->
  exchange proc text (tmp_name w) (entered w) = (Ok line, replied w text disk).
Proof.
  intros (Hacc & Hrep & _).
  unfold exchange, try_except_BrokenPipeError, stdin_write_flush,
    stdout_readline, replied.
  unfold request_line in *. run.
  rewrite Hacc. run. rewrite Hrep. reflexivity.
Qed.

Lemma synthesize_answered est self proc text w line disk :
  ready self proc w ->
  answered w text line disk ->
  synthesize_with est self text w
  = let (r, w2) := collect est proc text (tmp_name w) line (replied w text disk) in
    (match r with
     | Ok p => Ok (mkSynthesis (fst p) (lit "audio/wav") (snd p))
     | Raise e => Raise e
     end,
     log (EvRmtree (tmp_name w)) (set_fs (rmtree (tmp_name w) (fs w2)) w2)).
Proof.
  intros Hready Hans. rewrite (synthesize_with_ready _ _ _ _ _ Hready).
  unfold synthesize_block, bind.
  now rewrite (exchange_answered _ _ _ _ _ Hans).
Qed.

(** What lines 90-108 give on a disk: the timings, then the audio. *)
Lemma collect_files (est : str -> list json) (text d : str) (w0 w : World) :
  fs w0 = fs w ->
  fst ((has_timings <- path_exists (joinpath d "timings.json") ;;
        timings <- (if has_timings
                    then
                      content <- read_text (joinpath d "timings.json") ;;
                      match json_loads content with
                      | Some j => ret j
                      | None => raise JSONDecodeError
                      end
                    else ret (JList (est text))) ;;
        audio <- read_bytes (joinpath d "output.wav") ;;
        ret (b64encode audio, timings)) w0)
  = match
      match fs w (joinpath d "timings.json") with
      | None => Ok (JList (est text))
      | Some Dir => Raise (IsADirectoryError (joinpath d "timings.json"))
      | Some (Unreachable err) => Raise (OSError err)
      | Some (File content) =>
          match decode content with
          | None => Raise UnicodeDecodeError
          | Some s => match json_loads s with
                      | None => Raise JSONDecodeError
                      | Some j => Ok j
                      end
          end
      end
    with
    | Raise e => Raise e
    | Ok timings =>
        match fs w (joinpath d "output.wav") with
        | Some (File audio) => Ok (b64encode audio, timings)
        | Some Dir => Raise (IsADirectoryError (joinpath d "output.wav"))
        | Some (Unreachable err) => Raise (OSError err)
        | None => Raise (FileNotFoundError (joinpath d "output.wav"))
        end
    end.
Proof.
  intros Hw0. run. rewrite ?Hw0.
  destruct (fs w (joinpath d "timings.json")) as [[content| |err]|] eqn:Hside;
    run; rewrite ?Hw0, ?Hside; try reflexivity.
  - destruct (decode content) as [s|]; [|reflexivity].
    destruct (json_loads s) as [j|]; run; rewrite ?Hw0; [|reflexivity].
    destruct (fs w (joinpath d "output.wav")) as [[audio| |err]|]; reflexivity.
  - destruct (fs w (joinpath d "output.wav")) as [[audio| |err]|]; reflexivity.
Qed.

(** What the check of line 87 gives on a disk. *)
Lemma collect_check est proc text d line w :
  line <> [] ->
  strip line <> [] ->
  fst (collect est proc text d line w)
  = match fs w (strip line) with
    | None => Raise (RuntimeError (lit "Piper error: " ++ strip line))
    | Some (Unreachable err) => Raise (OSError err)
    | Some _ =>
        fst ((has_timings <- path_exists (joinpath d "timings.json") ;;
              timings <- (if has_timings
                          then
                            content <- read_text (joinpath d "timings.json") ;;
                            match json_loads content with
                            | Some j => ret j
                            | None => raise JSONDecodeError
                            end
                          else ret (JList (est text))) ;;
              audio <- read_bytes (joinpath d "output.wav") ;;
              ret (b64encode audio, timings)) (log (EvExists (strip line)) w))
    end.
Proof.
  intros Hline Hne. unfold collect.
  destruct line as [|c line]; [now elim Hline|].
  destruct (strip (c :: line)) as [|c' resp] eqn:Hresp; [now elim Hne|].
  unfold bind at 1, bind at 1, path_exists at 1, ret at 1.
  destruct (fs w (c' :: resp)) as [[b| |err]|]; reflexivity.
Qed.

Lemma collect_missing est proc text d line w :
  strip line <> [] ->
  fs w (strip line) = None ->
  fst (collect est proc text d line w)
  = Raise (RuntimeError (lit "Piper error: " ++ strip line)).
Proof.
  intros Hne Hnone. rewrite collect_check, Hnone; trivial.
  intros ->. now apply Hne.
Qed.

Lemma collect_unreachable est proc text d line w err :
  strip line <> [] ->
  fs w (strip line) = Some (Unreachable err) ->
  fst (collect est proc text d line w) = Raise (OSError err).
Proof.
  intros Hne Hun. rewrite collect_check, Hun; trivial.
  intros ->. now apply Hne.
Qed.

(** What reading and parsing the sidecar and reading the audio give once
    the line has passed the check. *)
Lemma collect_passes_check est proc text d line w :
  line <> [] ->
  names_a_file line (fs w) ->
  fst (collect est proc text d line w)
  = match
      match fs w (joinpath d "timings.json") with
      | None => Ok (JList (est text))
      | Some Dir => Raise (IsADirectoryError (joinpath d "timings.json"))
      | Some (Unreachable err) => Raise (OSError err)
      | Some (File content) =>
          match decode content with
          | None => Raise UnicodeDecodeError
          | Some s => match json_loads s with
                      | None => Raise JSONDecodeError
                      | Some j => Ok j
                      end
          end
      end
    with
    | Raise e => Raise e
    | Ok timings =>
        match fs w (joinpath d "output.wav") with
        | Some (File audio) => Ok (b64encode audio, timings)
        | Some Dir => Raise (IsADirectoryError (joinpath d "output.wav"))
        | Some (Unreachable err) => Raise (OSError err)
        | None => Raise (FileNotFoundError (joinpath d "output.wav"))
        end
    end.
Proof.
  intros Hline Hname.
  destruct (strip line) as [|c' resp] eqn:Hresp.
  - unfold collect. destruct line as [|c line]; [now elim Hline|].
    rewrite Hresp. unfold bind at 1, ret at 1. now apply collect_files.
  - destruct Hname as [E | Hnode]; [congruence|].
    rewrite collect_check; [|exact Hline | congruence].
    rewrite Hresp in *.
    destruct (fs w (c' :: resp)) as [[b| |err]|]; try now elim Hnode.
    + now apply collect_files.
    + now apply collect_files.
Qed.

Lemma collect_fallback est proc text d line w audio :
  line <> [] ->
  names_a_file line (fs w) ->
  fs w (joinpath d "timings.json") = None ->
  fs w (joinpath d "output.wav") = Some (File audio) ->
  fst (collect est proc text d line w) = Ok (b64encode audio, JList (est text)).
Proof.
  intros Hline Hname Hnone Hwav.
  now rewrite (collect_passes_check _ _ _ _ _ _ Hline Hname), Hnone, Hwav.
Qed.

Lemma collect_sidecar est proc text d line w audio content s j :
  line <> [] ->
  names_a_file line (fs w) ->
  fs w (joinpath d "timings.json") = Some (File content) ->
  decode content = Some s ->
  json_loads s = Some j ->
  fs w (joinpath d "output.wav") = Some (File audio) ->
  fst (collect est proc text d line w) = Ok (b64encode audio, j).
Proof.
  intros Hline Hname Hside Hdec Hload Hwav.
  now rewrite (collect_passes_check _ _ _ _ _ _ Hline Hname),
    Hside, Hdec, Hload, Hwav.
Qed.

Lemma collect_estimate_unused est est' proc text d line w :
  fs w (joinpath d "timings.json") <> None ->
  collect est proc text d line w = collect est' proc text d line w.
Proof.
  intros Hside. unfold collect.
  destruct line as [|c line]; [reflexivity|].
  destruct (strip (c :: line)) as [|c' resp]; run.
  - destruct (fs w (joinpath d "timings.json")) as [[content| |err]|];
      [reflexivity | reflexivity | reflexivity | now elim Hside].
  - destruct (fs w (c' :: resp)) as [[b| |err]|]; try reflexivity; run;
      (destruct (fs w (joinpath d "timings.json")) as [[content| |err']|];
       [reflexivity | reflexivity | reflexivity | now elim Hside]).
Qed.

(** Without a sidecar, whatever [collect] returns carries the estimate. *)
Lemma collect_fallback_inv est proc text d line w r :
  fs w (joinpath d "timings.json") = None ->
  fst (collect est proc text d line w) = Ok r ->
  snd r = JList (est text).
Proof.
  intros Hnone Hr.
  destruct line as [|c line].
  { unfold collect, read_stderr_of in Hr. destruct (stderr proc); discriminate. }
  assert (Hline : c :: line <> []) by discriminate.
  destruct (strip (c :: line)) as [|c' resp] eqn:Hresp.
  - rewrite (collect_passes_check _ _ _ _ _ _ Hline (or_introl Hresp)), Hnone
      in Hr.
    destruct (fs w (joinpath d "output.wav")) as [[audio| |err]|];
      try discriminate.
    now injection Hr as <-.
  - rewrite collect_check in Hr; [|exact Hline | congruence].
    rewrite Hresp in Hr.
    destruct (fs w (c' :: resp)) as [[b| |err]|]; try discriminate;
      rewrite (collect_files est text d (log (EvExists (c' :: resp)) w) w
                 eq_refl), Hnone in Hr;
      (destruct (fs w (joinpath d "output.wav")) as [[audio| |err]|];
       try discriminate); now injection Hr as <-.
Qed.



(** *** The trace only grows *)

Lemma extends_ret {A} (a : A) : extends (ret a).
Proof. intros w. exists []. cbn. now rewrite app_nil_r. Qed.

Lemma extends_raise {A} (e : exn) : extends (@raise A e).
Proof. intros w. exists []. cbn. now rewrite app_nil_r. Qed.

Lemma extends_bind {A B} (c : M A) (k : A -> M B) :
  extends c -> (forall a, extends (k a)) -> extends (bind c k).
Proof.
  intros Hc Hk w. unfold bind. destruct (Hc w) as [evs Hevs].
  destruct (c w) as [[a|e] w1]; cbn in Hevs.
  - destruct (Hk a w1) as [evs' Hevs']. exists (evs ++ evs').
    now rewrite Hevs', Hevs, app_assoc.
  - now exists evs.
Qed.

Lemma extends_try {A} (body handler : M A) :
  extends body -> extends handler ->
  extends (try_except_BrokenPipeError body handler).
Proof.
  intros Hb Hh w. unfold try_except_BrokenPipeError.
  destruct (Hb w) as [evs Hevs].
  destruct (body w) as [[a|e] w1]; cbn in Hevs; [now exists evs|].
  destruct e; try (now exists evs).
  destruct (Hh w1) as [evs' Hevs']. exists (evs ++ evs').
  now rewrite Hevs', Hevs, app_assoc.
Qed.

Lemma extends_path_exists p : extends (path_exists p).
Proof. intros w. now eexists. Qed.

Lemma extends_read_bytes p : extends (read_bytes p).
Proof. intros w. now eexists. Qed.

Lemma extends_read_text p : extends (read_text p).
Proof. intros w. now eexists. Qed.

Lemma extends_read_stderr_of proc : extends (read_stderr_of proc).
Proof.
  unfold read_stderr_of. destruct (stderr proc);
    [intros w; now eexists | apply extends_ret].
Qed.

Lemma extends_stdin_write_flush line : extends (stdin_write_flush line).
Proof.
  intros w. unfold stdin_write_flush.
  destruct (accepts w (sent w) line); now eexists.
Qed.

Lemma extends_stdout_readline : extends stdout_readline.
Proof.
  intros w. unfold stdout_readline.
  destruct (replies w (sent w) (fs w)) as [[l|] disk]; now eexists.
Qed.

Lemma extends_exchange proc text d : extends (exchange proc text d).
Proof.
  unfold exchange.
  apply extends_bind; [|intros _];
    (apply extends_try;
     [ first [apply extends_stdin_write_flush | apply extends_stdout_readline]
     | apply extends_bind;
       [apply extends_read_stderr_of | intros err; apply extends_raise] ]).
Qed.

Lemma extends_collect est proc text d line : extends (collect est proc text d line).
Proof.
  unfold collect. destruct line as [|c line].
  - apply extends_bind;
      [apply extends_read_stderr_of | intros err; apply extends_raise].
  - apply extends_bind.
    + destruct (strip (c :: line)); [apply extends_ret|].
      apply extends_bind; [apply extends_path_exists | intros e; apply extends_ret].
    + intros [|]; [apply extends_raise|].
      apply extends_bind; [apply extends_path_exists|].
      intros has. apply extends_bind.
      * destruct has; [|apply extends_ret].
        apply extends_bind; [apply extends_read_text|].
        intros content. destruct (json_loads content);
          [apply extends_ret | apply extends_raise].
      * intros timings. apply extends_bind;
          [apply extends_read_bytes | intros audio; apply extends_ret].
Qed.

Lemma extends_synthesize_block est proc text d :
  extends (synthesize_block est proc text d).
Proof.
  apply extends_bind; [apply extends_exchange | intros line; apply extends_collect].
Qed.

End Runs.

(** ** The timings [synthesize] returns *)

Section Timings.

Context {lib : Library}.

(** C1 (as amended): when the engine answers and leaves the audio but no
    sidecar, [synthesize] returns the fallback sequence. It has one entry
    per whitespace-separated word of the text, in the order of the words
    (the words being non-empty, free of whitespace, and together the text
    without its whitespace);
    the first entry starts at 0.0; every entry ends at the binary64 sum of
    its start and 0.2; every entry starts where the one before it ends;
    and every entry starts before it ends up to the first entry at which
    adding 0.2 no longer gives more: there is such an entry number, the
    same for every text and beyond [checked_words]; every entry before it
    starts before it ends, and the entry with that number, if the text has
    so many words, does not. *)
Theorem fallback_timing_sequence self proc text w line disk audio :
  ready self proc w ->
  answered w text line disk ->
  names_a_file line disk ->
  disk (joinpath (tmp_name w) "timings.json") = None ->
  disk (joinpath (tmp_name w) "output.wav") = Some (File audio) ->
  exists entries,
    fst (synthesize self text w)
    = Ok (mkSynthesis (b64encode audio) (lit "audio/wav") (JList entries))
    /\ length entries = word_count text
    /\ Forall nonblank (split text)
    /\ concat (split text) = filter (fun c => negb (isspace c)) text
    /\ map (get "word") entries
       = map (fun word => Some (JStr word)) (split text)
    /\ (forall e, nth_error entries 0 = Some e ->
                  get "startTime" e = Some (JFloat 0.0%float))
    /\ (forall i e, nth_error entries i = Some e ->
                    exists s, get "startTime" e = Some (JFloat s)
                              /\ get "endTime" e
                                 = Some (JFloat (s + 0.2)%float))
    /\ (forall i a b, nth_error entries i = Some a ->
                      nth_error entries (S i) = Some b ->
                      get "startTime" b = get "endTime" a)
    /\ exists stall,
         first_stall stall
         /\ (checked_words <= N.of_nat stall)%N
         /\ (forall i e, nth_error entries i = Some e -> i < stall ->
                         start_before_end e)
         /\ (forall e, nth_error entries stall = Some e ->
                       ~ start_before_end e).
Proof.
  intros Hready Hans Hname Hnone Hwav.
  exists (fallback_timings text). split.
  { unfold synthesize. rewrite (synthesize_answered _ _ _ _ _ _ _ Hready Hans).
    pose proof (collect_fallback fallback_timings proc text (tmp_name w) line
                  (replied w text disk) audio) as Hc.
    destruct Hans as (_ & _ & Hline).
    specialize (Hc Hline Hname Hnone Hwav).
    destruct (collect _ _ _ _ _ _) as [r w2]. cbn in Hc. subst r. reflexivity. }
  repeat match goal with |- _ /\ _ => split end.
  - now rewrite fallback_timings_entries, entries_from_length,
      split_length_word_count.
  - apply split_words_nonblank.
  - apply split_concat.
  - rewrite fallback_timings_entries. apply entries_from_words.
  - rewrite fallback_timings_entries. intros e He.
    destruct (entries_from_nth _ _ _ _ He) as (word & s & -> & Hs).
    now rewrite (Hs eq_refl).
  - rewrite fallback_timings_entries. intros i e He.
    destruct (entries_from_nth _ _ _ _ He) as (word & s & -> & _).
    now exists s.
  - rewrite fallback_timings_entries. intros i a b.
    apply entries_from_contiguous.
  - destruct first_stall_exists as [stall Hstall]. exists stall.
    split; [exact Hstall|].
    split; [now apply first_stall_beyond_checked|].
    destruct Hstall as [Hbefore Hat]. split.
    + intros i e He Hi. apply (fallback_entry_advances _ _ _ He).
      now apply Hbefore.
    + intros e He Hs. apply (fallback_entry_advances _ _ _ He) in Hs.
      congruence.
Qed.

(** C3 (as amended): when no sidecar is on the disk, every timings sequence
    [synthesize] returns keeps the order up to the first entry at which
    adding 0.2 no longer gives more: every entry before that one starts
    before it ends. That entry number exists, is the same for every text,
    and lies beyond [checked_words]. *)
Theorem fallback_entries_start_before_end self proc text w line disk res :
  ready self proc w ->
  answered w text line disk ->
  disk (joinpath (tmp_name w) "timings.json") = None ->
  fst (synthesize self text w) = Ok res ->
  exists entries stall,
    timings res = JList entries
    /\ first_stall stall
    /\ (checked_words <= N.of_nat stall)%N
    /\ (forall i e, nth_error entries i = Some e -> i < stall ->
                    start_before_end e)
    /\ (forall e, nth_error entries stall = Some e -> ~ start_before_end e).
Proof.
  intros Hready Hans Hnone Hres.
  unfold synthesize in Hres.
  rewrite (synthesize_answered _ _ _ _ _ _ _ Hready Hans) in Hres.
  pose proof (collect_fallback_inv fallback_timings proc text (tmp_name w) line
                (replied w text disk)) as Hc.
  destruct (collect _ _ _ _ _ _) as [[r|e] w2]; cbn in Hres; [|discriminate].
  injection Hres as <-. cbn [timings].
  destruct first_stall_exists as [stall Hstall].
  exists (fallback_timings text), stall.
  split; [now apply Hc|]. split; [exact Hstall|].
  split; [now apply first_stall_beyond_checked|].
  destruct Hstall as [Hbefore Hat]. split.
  - intros i e He Hi. apply (fallback_entry_advances _ _ _ He).
    now apply Hbefore.
  - intros e He Hs. apply (fallback_entry_advances _ _ _ He) in Hs.
    congruence.
Qed.

(** C10: for a text that is empty or all whitespace, when the engine
    answers and leaves the audio but no sidecar, [synthesize] returns the
    encoded audio, the mime type and an empty timings list. *)
Theorem blank_text_empty_timings self proc text w line disk audio :
  forallb isspace text = true ->
  ready self proc w ->
  answered w text line disk ->
  names_a_file line disk ->
  disk (joinpath (tmp_name w) "timings.json") = None ->
  disk (joinpath (tmp_name w) "output.wav") = Some (File audio) ->
  fst (synthesize self text w)
  = Ok (mkSynthesis (b64encode audio) (lit "audio/wav") (JList [])).
Proof.
  intros Hblank Hready Hans Hname Hnone Hwav.
  unfold synthesize. rewrite (synthesize_answered _ _ _ _ _ _ _ Hready Hans).
  pose proof (collect_fallback fallback_timings proc text (tmp_name w) line
                (replied w text disk) audio) as Hc.
  destruct Hans as (_ & _ & Hline).
  specialize (Hc Hline Hname Hnone Hwav).
  destruct (collect _ _ _ _ _ _) as [r w2]. cbn in Hc. subst r.
  cbn [fst snd]. unfold fallback_timings. now rewrite (split_blank _ Hblank).
Qed.

End Timings.

(** ** The response line and the sidecar *)

Section Response.

Context {lib : Library}.


(** C5: when the engine answers and leaves the audio and a sidecar that
    parses to [j], [synthesize] returns [j] itself as the timings, and the
    whole outcome is the same whichever estimator stands in the [else]
    branch: the fallback loop takes no part in the call. *)
Theorem sidecar_used_verbatim self proc text w line disk audio content s j :
  ready self proc w ->
  answered w text line disk ->
  names_a_file line disk ->
  disk (joinpath (tmp_name w) "timings.json") = Some (File content) ->
  decode content = Some s ->
  json_loads s = Some j ->
  disk (joinpath (tmp_name w) "output.wav") = Some (File audio) ->
  fst (synthesize self text w)
  = Ok (mkSynthesis (b64encode audio) (lit "audio/wav") j)
  /\ forall estimate,
       synthesize_with estimate self text w = synthesize self text w.
Proof.
  intros Hready Hans Hname Hside Hdec Hload Hwav. split.
  - unfold synthesize. rewrite (synthesize_answered _ _ _ _ _ _ _ Hready Hans).
    pose proof (collect_sidecar fallback_timings proc text (tmp_name w) line
                  (replied w text disk) audio content s j) as Hc.
    destruct Hans as (_ & _ & Hline).
    specialize (Hc Hline Hname Hside Hdec Hload Hwav).
    destruct (collect _ _ _ _ _ _) as [r w2]. cbn in Hc. now subst r.
  - intros estimate. unfold synthesize.
    rewrite !(synthesize_answered _ _ _ _ _ _ _ Hready Hans).
    rewrite (collect_estimate_unused estimate fallback_timings); [reflexivity|].
    change (fs (replied w text disk)) with disk. now rewrite Hside.
Qed.

End Response.

(** ** Preconditions and termination *)

Section Preconditions.

Context {lib : Library}.

Lemma synthesize_unavailable self text w :
  process self = None ->
  synthesize self text w
  = (match fst (_get_error_message self w) with
     | Ok msg => Raise (RuntimeError msg)
     | Raise e => Raise e
     end,
     log (EvRun [executable self; lit "--version"]) w).
Proof.
  intros Hp. unfold synthesize, synthesize_with. rewrite Hp.
  unfold _get_error_message. run.
  destruct (run_version w (executable self)); reflexivity.
Qed.

(** What [_get_error_message] gives for each outcome of the probe. *)
Lemma get_error_message_outcome self w :
  fst (_get_error_message self w)
  = match run_version w (executable self) with
    | Completed out err =>
        Ok (match strip err with
            | [] => match strip out with
                    | [] => lit "Piper executable not found"
                    | m => m
                    end
            | m => m
            end)
    | RunOSError exc => Ok exc
    | RunUnicodeDecodeError => Raise UnicodeDecodeError
    | RunValueError msg => Raise (ValueError msg)
    end.
Proof.
  unfold _get_error_message. run.
  destruct (run_version w (executable self)) as [out err | exc | | msg];
    try reflexivity.
  now destruct (strip err), (strip out).
Qed.



(** C6 (as amended): without a process, [synthesize] never returns, leaves
    the disk as it was, and the only primitive it performs is the version
    probe: no directory is made and no file is looked up or read. What it
    raises is a runtime error when the probe completes or raises an OS
    error, and the probe's own exception when the probe raises another. *)
Theorem unavailable_touches_nothing self text w :
  process self = None ->
  (exists e, fst (synthesize self text w) = Raise e)
  /\ fs (snd (synthesize self text w)) = fs w
  /\ trace (snd (synthesize self text w))
     = trace w ++ [EvRun [executable self; lit "--version"]]
  /\ ((exists out err, run_version w (executable self) = Completed out err)
      \/ (exists exc, run_version w (executable self) = RunOSError exc) ->
      exists msg, fst (synthesize self text w) = Raise (RuntimeError msg))
  /\ (run_version w (executable self) = RunUnicodeDecodeError ->
      fst (synthesize self text w) = Raise UnicodeDecodeError)
  /\ (forall msg, run_version w (executable self) = RunValueError msg ->
                  fst (synthesize self text w) = Raise (ValueError msg)).
Proof.
  intros Hp. rewrite (synthesize_unavailable _ _ _ Hp).
  rewrite get_error_message_outcome. cbn [fst snd fs trace log].
  repeat match goal with |- _ /\ _ => split end; try reflexivity.
  - destruct (run_version w (executable self)); now eexists.
  - intros [(out & err & ->) | (exc & ->)]; now eexists.
  - now intros ->.
  - now intros msg ->.
Qed.


(** C8 (as amended): the message is the probe's stderr trimmed of
    surrounding whitespace if that is not empty, else its stdout trimmed if
    that is not empty, else "Piper executable not found"; when the probe
    raises an OS error the message is the text of that error; and without
    a process this message is the one [synthesize] raises. *)
Theorem error_message_from_probe self w :
  (forall out err,
     run_version w (executable self) = Completed out err ->
     strip err <> [] ->
     fst (_get_error_message self w) = Ok (strip err))
  /\ (forall out err,
        run_version w (executable self) = Completed out err ->
        strip err = [] -> strip out <> [] ->
        fst (_get_error_message self w) = Ok (strip out))
  /\ (forall out err,
        run_version w (executable self) = Completed out err ->
        strip err = [] -> strip out = [] ->
        fst (_get_error_message self w)
        = Ok (lit "Piper executable not found"))
  /\ (forall exc,
        run_version w (executable self) = RunOSError exc ->
        fst (_get_error_message self w) = Ok exc)
  /\ (forall text,
        process self = None ->
        fst (synthesize self text w)
        = match fst (_get_error_message self w) with
          | Ok msg => Raise (RuntimeError msg)
          | Raise e => Raise e
          end).
Proof.
  repeat match goal with |- _ /\ _ => split end.
  - intros out err Hrun Herr. rewrite get_error_message_outcome, Hrun.
    destruct (strip err); [now elim Herr | reflexivity].
  - intros out err Hrun Herr Hout. rewrite get_error_message_outcome, Hrun, Herr.
    destruct (strip out); [now elim Hout | reflexivity].
  - intros out err Hrun Herr Hout.
    now rewrite get_error_message_outcome, Hrun, Herr, Hout.
  - intros exc Hrun. now rewrite get_error_message_outcome, Hrun.
  - intros text Hp. now rewrite (synthesize_unavailable _ _ _ Hp).
Qed.

(** C9: once the checks pass, whatever the block does and however it is
    left, the call makes the scratch directory right after the poll, the
    last primitive it performs is the removal of that directory, and in
    the world it leaves neither the directory nor any path below it is on
    the disk. *)
Theorem scratch_removed_on_every_path self proc text w :
  ready self proc w ->
  (forall p, inside (tmp_name w) p = true ->
             fs (snd (synthesize self text w)) p = None)
  /\ exists evs,
       trace (snd (synthesize self text w))
       = trace w ++ [EvPoll; EvMkdtemp (tmp_name w)] ++ evs
         ++ [EvRmtree (tmp_name w)].
Proof.
  intros Hready. unfold synthesize.
  rewrite (synthesize_with_ready _ _ _ _ _ Hready).
  destruct (extends_synthesize_block fallback_timings proc text (tmp_name w)
              (entered w)) as [evs Hevs].
  destruct (synthesize_block _ _ _ _ _) as [r w2]. cbn [snd] in *. split.
  - intros p Hp. cbn [fs log set_fs]. unfold rmtree. now rewrite Hp.
  - exists evs. cbn [trace log set_fs]. rewrite Hevs.
    unfold entered. cbn [trace log set_fs].
    now rewrite <- !app_assoc.
Qed.

End Preconditions.

(** C2: a manager built when the executable is not found has no process,
    and [terminate] on it raises an attribute error instead of returning. *)
Theorem terminate_without_process exe model config w :
  which w exe = false ->
  exists self w',
    __init__ exe model config w = (Ok self, w')
    /\ process self = None
    /\ terminate self w'
       = (Raise (AttributeError
                   (lit "'NoneType' object has no attribute 'poll'")), w').
Proof.
  intros Hwhich. unfold __init__. rewrite Hwhich.
  eexists _, _. repeat split.
Qed.

(** ** The methods on the sample worlds *)

(** The scenario of the echoing engine: two words, two entries of 0.2 s. *)
Example hello_world_scenario :
  fst (run_synthesize piper_up (lit "hello world") w_echo)
  = Ok (mkSynthesis (lit "UklGRg==") (lit "audio/wav")
          (JList [timing_dict (lit "hello") 0.0%float 0.2%float;
                  timing_dict (lit "world") 0.2%float 0.4%float])).
Proof. vm_compute. reflexivity. Qed.

(** The scenario of the engine that answers with an error text. *)
Example bad_model_scenario :
  fst (run_synthesize piper_up (lit "hello world") w_error)
  = Raise (RuntimeError (lit "Piper error: ERROR: bad model")).
Proof. vm_compute. reflexivity. Qed.

(** The scenario of the engine that has closed its pipe: the write fails,
    and the scratch directory is gone when the error reaches the caller. *)
Example pipe_broken_scenario :
  fst (run_synthesize piper_up (lit "hello world") w_closed)
  = Raise (RuntimeError (lit "Piper pipe broken: out of memory"))
  /\ fs (snd (run_synthesize piper_up (lit "hello world") w_closed)) scratch
     = None.
Proof. vm_compute. split; reflexivity. Qed.

Lemma fallback_three_words :
  fallback_timings (lit "a b c")
  = [timing_dict (lit "a") 0.0%float 0.2%float;
     timing_dict (lit "b") 0.2%float 0.4%float;
     timing_dict (lit "c") 0.4%float (0.4 + 0.2)%float].
Proof. vm_compute. reflexivity. Qed.

(** The echoing engine, on any text, gives the fallback sequence. *)
Lemma echo_returns_fallback text :
  fst (run_synthesize piper_up text w_echo)
  = Ok (mkSynthesis (base64 riff) (lit "audio/wav")
          (JList (fallback_timings text))).
Proof.
  assert (Hready : ready piper_up all_pipes w_echo) by (repeat split).
  assert (Hans : answered (lib := sample_library) w_echo text
                   (scratch_wav ++ newline) audio_disk)
    by (repeat split; discriminate).
  unfold run_synthesize, synthesize.
  rewrite (synthesize_answered _ _ _ _ _ _ _ Hready Hans).
  pose proof (collect_fallback (lib := sample_library) fallback_timings
                all_pipes text (tmp_name w_echo) (scratch_wav ++ newline)
                (replied (lib := sample_library) w_echo text audio_disk) riff)
    as Hc.
  destruct (collect _ _ _ _ _ _) as [r w2]. cbn [fst snd] in *.
  rewrite Hc; [reflexivity | discriminate | right; vm_compute; exact I
               | reflexivity | reflexivity].
Qed.

(** With the echoing engine, some non-empty text comes back with an entry
    that does not start before it ends. *)
Lemma echo_order_breaks :
  exists text entries,
    text <> []
    /\ fst (run_synthesize piper_up text w_echo)
       = Ok (mkSynthesis (base64 riff) (lit "audio/wav") (JList entries))
    /\ ~ Forall start_before_end entries.
Proof.
  destruct first_stall_exists as [n Hn].
  exists (words_text (S n)), (fallback_timings (words_text (S n))).
  split; [discriminate|].
  split; [apply echo_returns_fallback | now apply fallback_order_breaks].
Qed.

(** C1, counterexample: on the text "a b c" with the echoing engine and no
    sidecar, the third entry runs from 0.4 to 0.4 + 0.2, and in binary64
    that end minus that start is not 0.2. And on some non-empty text, with
    the same engine, an entry does not start before it ends. *)
Lemma fallback_duration_drifts :
  audio_disk scratch_timings = None
  /\ (exists entries,
        fst (run_synthesize piper_up (lit "a b c") w_echo)
        = Ok (mkSynthesis (base64 riff) (lit "audio/wav") (JList entries))
        /\ ~ Forall duration_is_02 entries)
  /\ (exists text entries,
        text <> []
        /\ fst (run_synthesize piper_up text w_echo)
           = Ok (mkSynthesis (base64 riff) (lit "audio/wav") (JList entries))
        /\ ~ Forall start_before_end entries).
Proof.
  split; [reflexivity|]. split; [|exact echo_order_breaks].
  exists (fallback_timings (lit "a b c")). split.
  - vm_compute. reflexivity.
  - rewrite fallback_three_words. intros H.
    inversion_clear H as [|? ? _ H1]. inversion_clear H1 as [|? ? _ H2].
    inversion_clear H2 as [|? ? H3 _].
    destruct H3 as (s & t & Hs & Ht & Hd).
    rewrite get_startTime_timing_dict in Hs. injection Hs as <-.
    rewrite get_endTime_timing_dict in Ht. injection Ht as <-.
    vm_compute in Hd. discriminate.
Qed.

(** C1, witness: the scenario of the echoing engine. *)
Lemma fallback_timing_sequence_hello_world :
  exists entries,
    fst (run_synthesize piper_up (lit "hello world") w_echo)
    = Ok (mkSynthesis (base64 riff) (lit "audio/wav") (JList entries))
    /\ length entries = word_count (lit "hello world")
    /\ Forall nonblank (split (lit "hello world"))
    /\ concat (split (lit "hello world"))
       = filter (fun c => negb (isspace c)) (lit "hello world")
    /\ map (get "word") entries
       = map (fun word => Some (JStr word)) (split (lit "hello world"))
    /\ (forall e, nth_error entries 0 = Some e ->
                  get "startTime" e = Some (JFloat 0.0%float))
    /\ (forall i e, nth_error entries i = Some e ->
                    exists s, get "startTime" e = Some (JFloat s)
                              /\ get "endTime" e = Some (JFloat (s + 0.2)%float))
    /\ (forall i a b, nth_error entries i = Some a ->
                      nth_error entries (S i) = Some b ->
                      get "startTime" b = get "endTime" a)
    /\ exists stall,
         first_stall stall
         /\ (checked_words <= N.of_nat stall)%N
         /\ (forall i e, nth_error entries i = Some e -> i < stall ->
                         start_before_end e)
         /\ (forall e, nth_error entries stall = Some e ->
                       ~ start_before_end e).
Proof.
  apply (fallback_timing_sequence (lib := sample_library) piper_up all_pipes
           (lit "hello world") w_echo (scratch_wav ++ newline) audio_disk riff).
  - repeat split.
  - repeat split. discriminate.
  - right. vm_compute. exact I.
  - reflexivity.
  - reflexivity.
Defined.

(** C3, counterexample: the engine leaves a sidecar whose one entry runs
    from 1.0 to 0.5; [synthesize] returns it as it is. And without a
    sidecar, on some non-empty text, an entry of the fallback sequence does
    not start before it ends. *)
Lemma sidecar_entry_reversed :
  (exists entries,
     fst (run_synthesize piper_up (lit "a") (w_sidecar reversed_sidecar_text))
     = Ok (mkSynthesis (base64 riff) (lit "audio/wav") (JList entries))
     /\ ~ Forall start_before_end entries)
  /\ audio_disk scratch_timings = None
  /\ (exists text entries,
        text <> []
        /\ fst (run_synthesize piper_up text w_echo)
           = Ok (mkSynthesis (base64 riff) (lit "audio/wav") (JList entries))
        /\ ~ Forall start_before_end entries).
Proof.
  split; [|split; [reflexivity | exact echo_order_breaks]].
  exists [timing_dict (lit "a") 1.0%float 0.5%float]. split.
  - vm_compute. reflexivity.
  - intros H. inversion_clear H as [|? ? H1 _].
    destruct H1 as (s & t & Hs & Ht & Hlt).
    rewrite get_startTime_timing_dict in Hs. injection Hs as <-.
    rewrite get_endTime_timing_dict in Ht. injection Ht as <-.
    vm_compute in Hlt. discriminate.
Qed.

(** C3, witness: the scenario of the echoing engine. *)
Lemma fallback_entries_start_before_end_hello_world :
  exists entries stall,
    timings (mkSynthesis (base64 riff) (lit "audio/wav")
               (JList (fallback_timings (lit "hello world"))))
    = JList entries
    /\ first_stall stall
    /\ (checked_words <= N.of_nat stall)%N
    /\ (forall i e, nth_error entries i = Some e -> i < stall ->
                    start_before_end e)
    /\ (forall e, nth_error entries stall = Some e -> ~ start_before_end e).
Proof.
  apply (fallback_entries_start_before_end (lib := sample_library)
           piper_up all_pipes (lit "hello world") w_echo
           (scratch_wav ++ newline) audio_disk).
  - repeat split.
  - repeat split. discriminate.
  - reflexivity.
  - vm_compute. reflexivity.
Defined.

(** C10, witness: a text of two spaces and a tab. *)
Lemma blank_text_empty_timings_spaces :
  fst (run_synthesize piper_up [32; 32; 9]%N w_echo)
  = Ok (mkSynthesis (base64 riff) (lit "audio/wav") (JList [])).
Proof.
  apply (blank_text_empty_timings (lib := sample_library) piper_up all_pipes
           [32; 32; 9]%N w_echo (scratch_wav ++ newline) audio_disk riff).
  - reflexivity.
  - repeat split.
  - repeat split. discriminate.
  - right. vm_compute. exact I.
  - reflexivity.
  - reflexivity.
Defined.



(** C5, witness: the engine leaves a sidecar with one aligned entry. *)
Lemma sidecar_used_verbatim_aligned :
  fst (run_synthesize piper_up (lit "hello") (w_sidecar aligned_sidecar_text))
  = Ok (mkSynthesis (base64 riff) (lit "audio/wav") aligned_sidecar)
  /\ forall estimate,
       synthesize_with (lib := sample_library) estimate piper_up (lit "hello")
         (w_sidecar aligned_sidecar_text)
       = run_synthesize piper_up (lit "hello") (w_sidecar aligned_sidecar_text).
Proof.
  apply (sidecar_used_verbatim (lib := sample_library) piper_up all_pipes
           (lit "hello") (w_sidecar aligned_sidecar_text)
           (scratch_wav ++ newline) (sidecar_disk aligned_sidecar_text) riff
           (ascii_encode aligned_sidecar_text) aligned_sidecar_text
           aligned_sidecar).
  - repeat split.
  - repeat split. discriminate.
  - right. vm_compute. exact I.
  - reflexivity.
  - reflexivity.
  - reflexivity.
  - reflexivity.
Defined.

(** C6, counterexample: there is no process and the probe prints bytes
    that do not decode as text; what [synthesize] raises is the decoding
    error of the probe, not a runtime error. *)
Lemma probe_failure_escapes :
  process piper_missing = None
  /\ fst (run_synthesize piper_missing (lit "hello") w_probe_undecodable)
     = Raise UnicodeDecodeError
  /\ forall msg,
       fst (run_synthesize piper_missing (lit "hello") w_probe_undecodable)
       <> Raise (RuntimeError msg).
Proof. repeat split. intros msg. vm_compute. discriminate. Qed.

(** C6, witness: the executable is not installed, and the probe fails with
    an OS error. *)
Lemma unavailable_touches_nothing_missing :
  (exists e,
     fst (run_synthesize piper_missing (lit "hello") w_missing) = Raise e)
  /\ fs (snd (run_synthesize piper_missing (lit "hello") w_missing))
     = fs w_missing
  /\ trace (snd (run_synthesize piper_missing (lit "hello") w_missing))
     = trace w_missing ++ [EvRun [lit "piper"; lit "--version"]]
  /\ exists msg,
       fst (run_synthesize piper_missing (lit "hello") w_missing)
       = Raise (RuntimeError msg).
Proof.
  pose proof (unavailable_touches_nothing (lib := sample_library) piper_missing
                (lit "hello") w_missing eq_refl)
    as (Hraise & Hfs & Htrace & Hruntime & _).
  split; [exact Hraise|]. split; [exact Hfs|]. split; [exact Htrace|].
  apply Hruntime. right. eexists. reflexivity.
Defined.



(** C8, counterexample: the probe prints "boom" and a line feed on stderr;
    the message is "boom", not the text the probe printed. *)
Lemma probe_output_is_trimmed :
  run_version w_probe_stderr (executable piper_missing)
  = Completed (lit "usage" ++ newline) (lit "boom" ++ newline)
  /\ fst (_get_error_message piper_missing w_probe_stderr) = Ok (lit "boom")
  /\ lit "boom" <> lit "boom" ++ newline.
Proof. repeat split. discriminate. Qed.

(** C8, witness: a probe that prints on stderr, and one that cannot run. *)
Lemma error_message_from_probe_samples :
  fst (_get_error_message piper_missing w_probe_stderr)
  = Ok (strip (lit "boom" ++ newline))
  /\ fst (_get_error_message piper_missing w_missing)
     = Ok (lit "[Errno 2] No such file or directory: 'piper'")
  /\ fst (run_synthesize piper_missing (lit "hello") w_missing)
     = match fst (_get_error_message piper_missing w_missing) with
       | Ok msg => Raise (RuntimeError msg)
       | Raise e => Raise e
       end.
Proof.
  split; [|split].
  - apply (proj1 (error_message_from_probe (lib := sample_library)
                    piper_missing w_probe_stderr)
             (lit "usage" ++ newline) (lit "boom" ++ newline));
      [reflexivity | vm_compute; discriminate].
  - apply (proj1 (proj2 (proj2 (proj2
             (error_message_from_probe (lib := sample_library)
                piper_missing w_missing))))).
    reflexivity.
  - apply (proj2 (proj2 (proj2 (proj2
             (error_message_from_probe (lib := sample_library)
                piper_missing w_missing)))) (lit "hello")).
    reflexivity.
Defined.

(** C9, witness: the engine that answers with an error text; the call
    raises and the scratch directory is gone. *)
Lemma scratch_removed_on_every_path_error :
  (forall p, inside (tmp_name w_error) p = true ->
             fs (snd (run_synthesize piper_up (lit "hello") w_error)) p = None)
  /\ exists evs,
       trace (snd (run_synthesize piper_up (lit "hello") w_error))
       = trace w_error ++ [EvPoll; EvMkdtemp (tmp_name w_error)] ++ evs
         ++ [EvRmtree (tmp_name w_error)].
Proof.
  apply (scratch_removed_on_every_path (lib := sample_library) piper_up
           all_pipes (lit "hello") w_error).
  repeat split.
Defined.

(** C2, witness: the executable is not installed. *)
Lemma terminate_without_process_missing :
  exists self w',
    __init__ (lit "piper") None None w_missing = (Ok self, w')
    /\ process self = None
    /\ terminate self w'
       = (Raise (AttributeError
                   (lit "'NoneType' object has no attribute 'poll'")), w').
Proof.
  apply (terminate_without_process (lit "piper") None None w_missing).
  reflexivity.
Defined.

(** * Further properties *)

(** ** Trimming *)

Lemma lstrip_idempotent (s : str) : lstrip (lstrip s) = lstrip s.
Proof.
  induction s as [|c s IH]; [reflexivity|].
  cbn. destruct (isspace c) eqn:Hc; [exact IH|]. cbn. now rewrite Hc.
Qed.

Lemma lstrip_app_nonspace (l r : str) (c : char) :
  isspace c = false -> lstrip (l ++ c :: r) = lstrip l ++ c :: r.
Proof.
  intros Hc. induction l as [|a l IH]; cbn.
  - now rewrite Hc.
  - destruct (isspace a); [exact IH | reflexivity].
Qed.

Lemma lstrip_head (s : str) :
  lstrip s = [] \/ exists c r, lstrip s = c :: r /\ isspace c = false.
Proof.
  induction s as [|a s IH]; [now left|].
  cbn. destruct (isspace a) eqn:Ha; [exact IH|]. right. now exists a, s.
Qed.

Lemma strip_trimmed (s : str) : trimmed (strip s).
Proof.
  unfold trimmed, strip, rstrip. split.
  - destruct (lstrip_head s) as [-> | (c & r & -> & Hc)]; [reflexivity|].
    cbn [rev]. rewrite (lstrip_app_nonspace _ [] _ Hc), rev_app_distr.
    cbn. now rewrite Hc.
  - now rewrite rev_involutive, lstrip_idempotent.
Qed.

Lemma strip_idempotent (s : str) : strip (strip s) = strip s.
Proof.
  destruct (strip_trimmed s) as [Hl Hr]. unfold strip at 1. now rewrite Hl.
Qed.

Lemma str_eqb_eq (a b : str) : str_eqb a b = true <-> a = b.
Proof.
  unfold str_eqb. destruct (list_eq_dec N.eq_dec a b); split; congruence.
Qed.

Lemma str_eqb_refl (a : str) : str_eqb a a = true.
Proof. now apply str_eqb_eq. Qed.

Section Failures.

Context {lib : Library}.

Lemma exchange_rejected proc text w :
  accepts w (sent w) (request_line text (tmp_name w)) = false ->
  exchange proc text (tmp_name w) (entered w)
  = (Raise (RuntimeError (lit "Piper pipe broken: " ++ strip (diagnostic proc w))),
     (if stderr proc
      then fun w' => log EvStderrRead (set_stderr_pending [] w')
      else fun w' => w')
       (log (EvStdinWrite (request_line text (tmp_name w))) (entered w))).
Proof.
  intros Hacc. unfold exchange, request_line, diagnostic in *. run.
  rewrite Hacc. destruct (stderr proc); reflexivity.
Qed.

Lemma exchange_replied proc text w line disk :
  accepts w (sent w) (request_line text (tmp_name w)) = true ->
  replies w (sent w ++ [request_line text (tmp_name w)])
          (mkdir (tmp_name w) (fs w)) = (Line line, disk) ->
  exchange proc text (tmp_name w) (entered w) = (Ok line, replied w text disk).
Proof.
  intros Hacc Hrep. unfold exchange, request_line in *. run.
  rewrite Hacc. run. now rewrite Hrep.
Qed.

Lemma exchange_read_broken proc text w disk :
  accepts w (sent w) (request_line text (tmp_name w)) = true ->
  replies w (sent w ++ [request_line text (tmp_name w)])
          (mkdir (tmp_name w) (fs w)) = (ReplyBrokenPipe, disk) ->
  exchange proc text (tmp_name w) (entered w)
  = (Raise (RuntimeError (lit "Piper pipe broken: " ++ strip (diagnostic proc w))),
     (if stderr proc
      then fun w' => log EvStderrRead (set_stderr_pending [] w')
      else fun w' => w')
       (replied w text disk)).
Proof.
  intros Hacc Hrep. unfold exchange, request_line, diagnostic in *. run.
  rewrite Hacc. run. rewrite Hrep. destruct (stderr proc); reflexivity.
Qed.

Lemma synthesize_exchange_raises self proc text w e w2 :
  ready self proc w ->
  exchange proc text (tmp_name w) (entered w) = (Raise e, w2) ->
  synthesize self text w
  = (Raise e, log (EvRmtree (tmp_name w)) (set_fs (rmtree (tmp_name w) (fs w2)) w2)).
Proof.
  intros Hready Hex. unfold synthesize.
  rewrite (synthesize_with_ready _ _ _ _ _ Hready).
  unfold synthesize_block, bind. now rewrite Hex.
Qed.



(** X2: when the write of the request fails, nothing further is asked of
    the engine or the disk: the call polls, makes the scratch directory,
    attempts the write, reads the diagnostic if stderr is attached, and
    removes the directory; no line is recorded as sent, and the disk is
    what it was with the scratch directory removed. *)
Theorem failed_write_stops_the_call self proc text w :
  ready self proc w ->
  accepts w (sent w) (request_line text (tmp_name w)) = false ->
  trace (snd (synthesize self text w))
  = trace w
    ++ [EvPoll; EvMkdtemp (tmp_name w);
        EvStdinWrite (request_line text (tmp_name w))]
    ++ (if stderr proc then [EvStderrRead] else [])
    ++ [EvRmtree (tmp_name w)]
  /\ sent (snd (synthesize self text w)) = sent w
  /\ forall p, fs (snd (synthesize self text w)) p
               = if inside (tmp_name w) p then None else fs w p.
Proof.
  intros Hready Hacc.
  rewrite (synthesize_exchange_raises _ _ _ _ _ _ Hready
             (exchange_rejected proc text w Hacc)).
  destruct (stderr proc); cbn [snd]; run.
  - repeat split.
    + now rewrite <- !app_assoc.
    + intros p. unfold rmtree, mkdir.
      destruct (inside (tmp_name w) p) eqn:Hin; [reflexivity|].
      unfold inside in Hin. apply orb_false_elim in Hin as [Hp _].
      now rewrite Hp.
  - repeat split.
    + now rewrite <- !app_assoc.
    + intros p. unfold rmtree, mkdir.
      destruct (inside (tmp_name w) p) eqn:Hin; [reflexivity|].
      unfold inside in Hin. apply orb_false_elim in Hin as [Hp _].
      now rewrite Hp.
Qed.

Lemma synthesize_end_of_output self proc text w disk :
  ready self proc w ->
  accepts w (sent w) (request_line text (tmp_name w)) = true ->
  replies w (sent w ++ [request_line text (tmp_name w)])
          (mkdir (tmp_name w) (fs w)) = (Line [], disk) ->
  fst (synthesize self text w)
  = Raise (RuntimeError (lit "Piper failed: " ++ diagnostic proc w)).
Proof.
  intros Hready Hacc Hrep. unfold synthesize.
  rewrite (synthesize_with_ready _ _ _ _ _ Hready).
  unfold synthesize_block, bind at 1.
  rewrite (exchange_replied proc text w [] disk Hacc Hrep).
  unfold collect, diagnostic. run. destruct (stderr proc); reflexivity.
Qed.


End Failures.

(** ** What the block leaves alone *)

Section Preserved.

Context {lib : Library}.
Context {X : Type} (f : World -> X).
Hypothesis f_log : forall e w, f (log e w) = f w.
Hypothesis f_stderr : forall s w, f (set_stderr_pending s w) = f w.

Lemma preserves_ret {A} (a : A) : preserves f (ret a).
Proof. now intros w. Qed.

Lemma preserves_raise {A} (e : exn) : preserves f (@raise A e).
Proof. now intros w. Qed.

Lemma preserves_bind {A B} (c : M A) (k : A -> M B) :
  preserves f c -> (forall a, preserves f (k a)) -> preserves f (bind c k).
Proof.
  intros Hc Hk w. unfold bind. specialize (Hc w).
  destruct (c w) as [[a|e] w1]; cbn in *; [|exact Hc].
  now rewrite (Hk a w1).
Qed.

Lemma preserves_path_exists p : preserves f (path_exists p).
Proof. intros w. apply f_log. Qed.

Lemma preserves_read_bytes p : preserves f (read_bytes p).
Proof. intros w. apply f_log. Qed.

Lemma preserves_read_text p : preserves f (read_text p).
Proof. intros w. apply f_log. Qed.

Lemma preserves_read_stderr_of proc : preserves f (read_stderr_of proc).
Proof.
  unfold read_stderr_of. destruct (stderr proc); [|apply preserves_ret].
  intros w. cbn. now rewrite f_log, f_stderr.
Qed.

Lemma preserves_collect est proc text d line :
  preserves f (collect est proc text d line).
Proof.
  unfold collect. destruct line as [|c line].
  - apply preserves_bind;
      [apply preserves_read_stderr_of | intros err; apply preserves_raise].
  - apply preserves_bind.
    + destruct (strip (c :: line)); [apply preserves_ret|].
      apply preserves_bind;
        [apply preserves_path_exists | intros e; apply preserves_ret].
    + intros [|]; [apply preserves_raise|].
      apply preserves_bind; [apply preserves_path_exists|].
      intros has. apply preserves_bind.
      * destruct has; [|apply preserves_ret].
        apply preserves_bind; [apply preserves_read_text|].
        intros content. destruct (json_loads content);
          [apply preserves_ret | apply preserves_raise].
      * intros timings. apply preserves_bind;
          [apply preserves_read_bytes | intros audio; apply preserves_ret].
Qed.

End Preserved.

Section Frame.

Context {lib : Library}.

Lemma collect_fs est proc text d line w :
  fs (snd (collect est proc text d line w)) = fs w.
Proof. now apply (preserves_collect fs). Qed.

Lemma collect_sent est proc text d line w :
  sent (snd (collect est proc text d line w)) = sent w.
Proof. now apply (preserves_collect sent). Qed.

Lemma synthesize_replied est self proc text w line disk :
  ready self proc w ->
  accepts w (sent w) (request_line text (tmp_name w)) = true ->
  replies w (sent w ++ [request_line text (tmp_name w)])
          (mkdir (tmp_name w) (fs w)) = (Line line, disk) ->
  synthesize_with est self text w
  = let (r, w2) := collect est proc text (tmp_name w) line (replied w text disk) in
    (match r with
     | Ok p => Ok (mkSynthesis (fst p) (lit "audio/wav") (snd p))
     | Raise e => Raise e
     end,
     log (EvRmtree (tmp_name w)) (set_fs (rmtree (tmp_name w) (fs w2)) w2)).
Proof.
  intros Hready Hacc Hrep. rewrite (synthesize_with_ready _ _ _ _ _ Hready).
  unfold synthesize_block, bind.
  now rewrite (exchange_replied proc text w line disk Hacc Hrep).
Qed.

(** X4: a call that passes the checks and whose write succeeds sends the
    engine exactly one line, the request for the text with the audio path
    inside the scratch directory; and whatever the engine answers, the disk
    afterwards is the disk the engine left, with the scratch directory and
    all below it removed: [synthesize] itself writes nothing. *)
Theorem one_request_and_no_writes self proc text w :
  ready self proc w ->
  accepts w (sent w) (request_line text (tmp_name w)) = true ->
  sent (snd (synthesize self text w))
  = sent w ++ [request_line text (tmp_name w)]
  /\ forall p,
       fs (snd (synthesize self text w)) p
       = if inside (tmp_name w) p then None
         else snd (replies w (sent w ++ [request_line text (tmp_name w)])
                           (mkdir (tmp_name w) (fs w))) p.
Proof.
  intros Hready Hacc.
  destruct (replies w (sent w ++ [request_line text (tmp_name w)])
              (mkdir (tmp_name w) (fs w))) as [[line|] disk] eqn:Hrep.
  - unfold synthesize.
    rewrite (synthesize_replied _ _ _ _ _ _ _ Hready Hacc Hrep).
    pose proof (collect_fs fallback_timings proc text (tmp_name w) line
                  (replied w text disk)) as Hfs.
    pose proof (collect_sent fallback_timings proc text (tmp_name w) line
                  (replied w text disk)) as Hsent.
    destruct (collect _ _ _ _ _ _) as [r w2]. cbn [snd] in *.
    split.
    + cbn [sent log set_fs]. now rewrite Hsent.
    + intros p. cbn [fs log set_fs snd]. unfold rmtree. now rewrite Hfs.
  - rewrite (synthesize_exchange_raises _ _ _ _ _ _ Hready
               (exchange_read_broken proc text w disk Hacc Hrep)).
    destruct (stderr proc); cbn [snd]; run; now split.
Qed.

End Frame.

(** ** What a call never does *)

Section Emits.

Context {lib : Library}.
Variable P : event -> Prop.

Lemma emits_ret {A} (a : A) : emits P (ret a).
Proof. intros w. exists []. cbn. now rewrite app_nil_r. Qed.

Lemma emits_raise {A} (e : exn) : emits P (@raise A e).
Proof. intros w. exists []. cbn. now rewrite app_nil_r. Qed.

Lemma emits_bind {A B} (c : M A) (k : A -> M B) :
  emits P c -> (forall a, emits P (k a)) -> emits P (bind c k).
Proof.
  intros Hc Hk w. unfold bind. destruct (Hc w) as (evs & Hevs & HP).
  destruct (c w) as [[a|e] w1]; cbn in Hevs.
  - destruct (Hk a w1) as (evs' & Hevs' & HP'). exists (evs ++ evs').
    split; [now rewrite Hevs', Hevs, app_assoc | now apply Forall_app].
  - now exists evs.
Qed.

Lemma emits_try {A} (body handler : M A) :
  emits P body -> emits P handler ->
  emits P (try_except_BrokenPipeError body handler).
Proof.
  intros Hb Hh w. unfold try_except_BrokenPipeError.
  destruct (Hb w) as (evs & Hevs & HP).
  destruct (body w) as [[a|e] w1]; cbn in Hevs; [now exists evs|].
  destruct e; try (now exists evs).
  destruct (Hh w1) as (evs' & Hevs' & HP'). exists (evs ++ evs').
  split; [now rewrite Hevs', Hevs, app_assoc | now apply Forall_app].
Qed.

Lemma emits_one {A} (c : M A) (e : event) :
  P e -> (forall w, trace (snd (c w)) = trace w ++ [e]) -> emits P c.
Proof. intros He Hc w. exists [e]. split; [apply Hc | now constructor]. Qed.

End Emits.

Section Never.

Context {lib : Library}.

Lemma emits_read_stderr_of d proc : emits (block_event d) (read_stderr_of proc).
Proof.
  unfold read_stderr_of. destruct (stderr proc); [|apply emits_ret].
  now apply (emits_one _ _ EvStderrRead).
Qed.

Lemma emits_exchange proc text d : emits (block_event d) (exchange proc text d).
Proof.
  unfold exchange. apply emits_bind; [|intros _]; apply emits_try.
  - intros w. unfold stdin_write_flush.
    destruct (accepts w (sent w) _); eexists [_]; (split; [reflexivity|]);
      now constructor.
  - apply emits_bind; [apply emits_read_stderr_of | intros err; apply emits_raise].
  - intros w. unfold stdout_readline.
    destruct (replies w (sent w) (fs w)) as [[l|] disk];
      exists [EvReadline]; (split; [reflexivity|]); now constructor.
  - apply emits_bind; [apply emits_read_stderr_of | intros err; apply emits_raise].
Qed.

Lemma emits_collect est proc text d line :
  emits (block_event d) (collect est proc text d line).
Proof.
  unfold collect. destruct line as [|c line].
  - apply emits_bind; [apply emits_read_stderr_of | intros err; apply emits_raise].
  - apply emits_bind.
    + destruct (strip (c :: line)) as [|c' resp]; [apply emits_ret|].
      apply emits_bind; [|intros e; apply emits_ret].
      now apply (emits_one _ _ (EvExists (c' :: resp))).
    + intros [|]; [apply emits_raise|].
      apply emits_bind;
        [now apply (emits_one _ _ (EvExists (joinpath d "timings.json")))|].
      intros has. apply emits_bind.
      * destruct has; [|apply emits_ret].
        apply emits_bind;
          [now apply (emits_one _ _ (EvReadText (joinpath d "timings.json")))|].
        intros content. destruct (json_loads content);
          [apply emits_ret | apply emits_raise].
      * intros timings. apply emits_bind; [|intros audio; apply emits_ret].
        now apply (emits_one _ _ (EvReadBytes (joinpath d "output.wav"))).
Qed.

Lemma block_event_synthesize_event self d e :
  block_event d e -> synthesize_event self d e.
Proof. destruct e; cbn; tauto. Qed.

Lemma Forall_block_synthesize self d evs :
  Forall (block_event d) evs -> Forall (synthesize_event self d) evs.
Proof.
  apply Forall_impl. intros e. apply block_event_synthesize_event.
Qed.

(** X5: on every manager, text and world, the primitives a call of
    [synthesize] performs are among these: the poll, the version probe of
    the manager's own executable, making and removing the scratch
    directory, one-line traffic on the pipes, existence tests, and reads of
    [timings.json] and [output.wav] inside the scratch directory. It never
    launches the engine, never signals or waits for it, and never reads the
    file the response line names. *)
Theorem synthesize_only_does self text w :
  exists evs,
    trace (snd (synthesize self text w)) = trace w ++ evs
    /\ Forall (synthesize_event self (tmp_name w)) evs.
Proof.
  unfold synthesize, synthesize_with.
  destruct (process self) as [proc|] eqn:Hp.
  - run. destruct (returncode w) eqn:Hrc.
    + destruct (stderr proc); run.
      * exists [EvPoll; EvStderrRead]. split; [now rewrite <- app_assoc|].
        repeat constructor.
      * exists [EvPoll]. split; [reflexivity | repeat constructor].
    + destruct (negb (stdin proc) || negb (stdout proc)) eqn:Hpipes.
      * exists [EvPoll]. split; [reflexivity | repeat constructor].
      * unfold with_TemporaryDirectory. run.
        set (w1 := log (EvMkdtemp (tmp_name w)) _).
        destruct (emits_exchange proc text (tmp_name w) w1) as (e1 & He1 & HP1).
        unfold synthesize_block, bind.
        destruct (exchange proc text (tmp_name w) w1) as [[line|e] w2];
          cbn [snd] in He1.
        -- destruct (emits_collect fallback_timings proc text (tmp_name w) line w2)
             as (e2 & He2 & HP2).
           exists ([EvPoll; EvMkdtemp (tmp_name w)] ++ e1 ++ e2
                   ++ [EvRmtree (tmp_name w)]).
           split.
           ++ destruct (collect _ _ _ _ _ w2) as [[r|e] w3]; cbn [snd] in He2;
                run; rewrite He2, He1; subst w1; run;
                now rewrite <- !app_assoc.
           ++ repeat (apply Forall_app; split); repeat constructor;
                now apply Forall_block_synthesize.
        -- run. rewrite He1. subst w1. run.
           exists ([EvPoll; EvMkdtemp (tmp_name w)] ++ e1
                   ++ [EvRmtree (tmp_name w)]).
           split; [now rewrite <- !app_assoc|].
           repeat (apply Forall_app; split); repeat constructor.
           now apply Forall_block_synthesize.
  - unfold _get_error_message. run.
    exists [EvRun [executable self; lit "--version"]].
    destruct (run_version w (executable self)); (split; [reflexivity|]);
      repeat constructor.
Qed.

End Never.

(** ** The files of the scratch directory *)

Section ScratchFiles.

Context {lib : Library}.

Lemma synthesize_answered_fst est self proc text w line disk :
  ready self proc w ->
  answered w text line disk ->
  fst (synthesize_with est self text w)
  = match fst (collect est proc text (tmp_name w) line (replied w text disk)) with
    | Ok p => Ok (mkSynthesis (fst p) (lit "audio/wav") (snd p))
    | Raise e => Raise e
    end.
Proof.
  intros Hready Hans. rewrite (synthesize_answered _ _ _ _ _ _ _ Hready Hans).
  now destruct (collect _ _ _ _ _ _) as [r w2].
Qed.


(** X7: the audio is read from [output.wav] in the scratch directory and
    from nowhere else. When the engine answers with an acceptable line and
    the timings are settled (no sidecar, or one that parses) but that file
    is not there, [synthesize] raises the file-not-found error for that
    path, even if the response line names a file that does exist. *)
Theorem missing_audio_propagates self proc text w line disk :
  ready self proc w ->
  answered w text line disk ->
  names_a_file line disk ->
  disk (joinpath (tmp_name w) "timings.json") = None
  \/ (exists content s j,
        disk (joinpath (tmp_name w) "timings.json") = Some (File content)
        /\ decode content = Some s /\ json_loads s = Some j) ->
  disk (joinpath (tmp_name w) "output.wav") = None ->
  fst (synthesize self text w)
  = Raise (FileNotFoundError (joinpath (tmp_name w) "output.wav")).
Proof.
  intros Hready Hans Hname Hside Hwav. unfold synthesize.
  rewrite (synthesize_answered_fst _ _ _ _ _ _ _ Hready Hans).
  destruct Hans as (_ & _ & Hline).
  rewrite (collect_passes_check _ _ _ _ _ (replied w text disk) Hline Hname).
  change (fs (replied w text disk)) with disk. rewrite Hwav.
  destruct Hside as [-> | (content & s & j & -> & -> & ->)]; reflexivity.
Qed.

(** X8: the response line matters only through the check of line 87. Two
    calls for the same text whose engines leave the same disk, each with a
    line that passes the check, have the same outcome, whatever paths the
    two lines name. *)
Theorem response_path_not_read self proc text w w' line line' disk :
  ready self proc w ->
  ready self proc w' ->
  tmp_name w = tmp_name w' ->
  answered w text line disk ->
  answered w' text line' disk ->
  names_a_file line disk ->
  names_a_file line' disk ->
  fst (synthesize self text w) = fst (synthesize self text w').
Proof.
  intros Hready Hready' Htmp Hans Hans' Hname Hname'. unfold synthesize.
  rewrite (synthesize_answered_fst _ _ _ _ _ _ _ Hready Hans).
  rewrite (synthesize_answered_fst _ _ _ _ _ _ _ Hready' Hans').
  destruct Hans as (_ & _ & Hline). destruct Hans' as (_ & _ & Hline').
  rewrite (collect_passes_check _ _ _ _ _ (replied w text disk) Hline Hname).
  rewrite (collect_passes_check _ _ _ _ _ (replied w' text disk) Hline' Hname').
  change (fs (replied w text disk)) with disk.
  change (fs (replied w' text disk)) with disk.
  now rewrite Htmp.
Qed.

Lemma synthesize_exited self proc rc text w :
  process self = Some proc ->
  returncode w = Some rc ->
  fst (synthesize self text w)
  = Raise (RuntimeError (lit "Piper terminated: " ++ strip (diagnostic proc w))).
Proof.
  intros Hp Hrc. unfold synthesize, synthesize_with, diagnostic. rewrite Hp.
  run. rewrite Hrc. now destruct (stderr proc).
Qed.

Lemma synthesize_misconfigured self proc text w :
  process self = Some proc ->
  returncode w = None ->
  stdin proc && stdout proc = false ->
  fst (synthesize self text w)
  = Raise (RuntimeError (lit "Piper process not started correctly")).
Proof.
  intros Hp Hrc Hpipes. unfold synthesize, synthesize_with. rewrite Hp. run.
  rewrite Hrc. now destruct (stdin proc), (stdout proc).
Qed.

(** X9: what a result tells. If [synthesize] returns, then the checks
    passed, the engine took the request and answered with a non-empty line
    that passes the check of line 87, [output.wav] was a file in the scratch
    directory, the returned audio is its encoding, the mime type is
    "audio/wav", and the timings are the fallback sequence if there was no
    sidecar and the parsed sidecar if there was one. *)
Theorem result_means self text w res :
  fst (synthesize self text w) = Ok res ->
  exists proc line disk audio,
    ready self proc w
    /\ answered w text line disk
    /\ names_a_file line disk
    /\ disk (joinpath (tmp_name w) "output.wav") = Some (File audio)
    /\ audioContent res = b64encode audio
    /\ mimeType res = lit "audio/wav"
    /\ match disk (joinpath (tmp_name w) "timings.json") with
       | None => timings res = JList (fallback_timings text)
       | Some (File content) =>
           exists s, decode content = Some s
                     /\ json_loads s = Some (timings res)
       | Some Dir | Some (Unreachable _) => False
       end.
Proof.
  intros Hres.
  destruct (process self) as [proc|] eqn:Hp.
  2:{ rewrite (synthesize_unavailable _ _ _ Hp) in Hres. cbn [fst] in Hres.
      destruct (fst (_get_error_message self w)); discriminate. }
  destruct (returncode w) as [rc|] eqn:Hrc.
  { rewrite (synthesize_exited _ _ _ _ _ Hp Hrc) in Hres. discriminate. }
  destruct (stdin proc && stdout proc) eqn:Hpipes.
  2:{ rewrite (synthesize_misconfigured _ _ _ _ Hp Hrc Hpipes) in Hres.
      discriminate. }
  apply andb_prop in Hpipes as [Hin Hout].
  assert (Hready : ready self proc w) by now repeat split.
  destruct (accepts w (sent w) (request_line text (tmp_name w))) eqn:Hacc.
  2:{ rewrite (synthesize_exchange_raises _ _ _ _ _ _ Hready
                 (exchange_rejected proc text w Hacc)) in Hres.
      discriminate. }
  destruct (replies w (sent w ++ [request_line text (tmp_name w)])
              (mkdir (tmp_name w) (fs w))) as [[line|] disk] eqn:Hrep.
  2:{ rewrite (synthesize_exchange_raises _ _ _ _ _ _ Hready
                 (exchange_read_broken proc text w disk Hacc Hrep)) in Hres.
      discriminate. }
  destruct line as [|c line].
  { rewrite (synthesize_end_of_output _ _ _ _ _ Hready Hacc Hrep) in Hres.
    discriminate. }
  assert (Hans : answered w text (c :: line) disk)
    by (repeat split; [exact Hacc | exact Hrep | discriminate]).
  assert (Hname : names_a_file (c :: line) disk).
  { unfold names_a_file.
    destruct (strip (c :: line)) as [|c' resp] eqn:Hresp; [now left|].
    right. unfold synthesize in Hres.
    rewrite (synthesize_answered_fst _ _ _ _ _ _ _ Hready Hans) in Hres.
    destruct (disk (c' :: resp)) as [[content| |err]|] eqn:Hnode;
      try exact I.
    - rewrite (collect_unreachable _ _ _ _ _ (replied w text disk) err)
        in Hres; [discriminate | | ]; now rewrite Hresp.
    - rewrite (collect_missing _ _ _ _ _ (replied w text disk)) in Hres;
        [discriminate | | ]; now rewrite Hresp. }
  unfold synthesize in Hres.
  rewrite (synthesize_answered_fst _ _ _ _ _ _ _ Hready Hans) in Hres.
  rewrite (collect_passes_check _ _ _ _ _ (replied w text disk)) in Hres;
    [|discriminate | exact Hname].
  change (fs (replied w text disk)) with disk in Hres.
  exists proc, (c :: line), disk.
  destruct (disk (joinpath (tmp_name w) "timings.json")) as [[content| |err]|].
  - destruct (decode content) as [s|]; [|discriminate].
    destruct (json_loads s) as [j|] eqn:Hj; [|discriminate].
    destruct (disk (joinpath (tmp_name w) "output.wav")) as [[audio| |err]|];
      try discriminate.
    injection Hres as <-. exists audio.
    do 3 (split; [assumption|]). do 3 (split; [reflexivity|]).
    now exists s.
  - discriminate.
  - discriminate.
  - destruct (disk (joinpath (tmp_name w) "output.wav")) as [[audio| |err]|];
      try discriminate.
    injection Hres as <-. exists audio.
    do 3 (split; [assumption|]). now do 3 (split; [reflexivity|]).
Qed.


End ScratchFiles.

(** ** Termination *)

Section Termination.

Context {lib : Library}.


(** X12: when the process does not exit within the wait, [terminate] raises
    the timeout error and does nothing more: the last primitive is the
    wait, the process is still seen running, and the manager still passes
    the checks of [synthesize] if it did before. *)
Theorem terminate_gives_up_after_wait self proc w :
  process self = Some proc ->
  returncode w = None ->
  exit_on_sigterm w = None ->
  fst (terminate self w) = Raise TimeoutExpired
  /\ trace (snd (terminate self w))
     = trace w ++ [EvPoll; EvTerminate; EvWait 5]
  /\ returncode (snd (terminate self w)) = None
  /\ (ready self proc w -> ready self proc (snd (terminate self w))).
Proof.
  intros Hp Hrc Hexit.
  assert (Hw : terminate self w
               = (Raise TimeoutExpired,
                  log (EvWait 5) (log EvTerminate (log EvPoll w)))).
  { unfold terminate, process_terminate, process_wait. rewrite Hp. run.
    rewrite Hrc. cbn [exit_on_sigterm log]. now rewrite Hexit. }
  rewrite Hw. cbn [fst snd]. repeat split.
  - cbn [trace log]. now rewrite <- !app_assoc.
  - exact Hrc.
  - exact Hp.
  - exact Hrc.
  - now destruct H as (_ & _ & Hin & _).
  - now destruct H as (_ & _ & _ & Hout).
Qed.

(** On a process that has already exited, [terminate] only polls: no
    signal is sent and nothing is waited for. *)
Lemma terminate_exited_only_polls self proc rc w :
  process self = Some proc ->
  returncode w = Some rc ->
  terminate self w = (Ok tt, log EvPoll w).
Proof.
  intros Hp Hrc. unfold terminate. rewrite Hp. run. now rewrite Hrc.
Qed.

End Termination.

(** ** The error message *)

(** X13: when the probe runs, the message [_get_error_message] returns is
    never empty and has no whitespace at either end. *)
Theorem error_message_nonempty_trimmed self w out err :
  run_version w (executable self) = Completed out err ->
  exists msg, fst (_get_error_message self w) = Ok msg
              /\ msg <> [] /\ trimmed msg.
Proof.
  intros Hrun. unfold _get_error_message. run. rewrite Hrun.
  destruct (strip err) as [|c m] eqn:Herr.
  - destruct (strip out) as [|c m] eqn:Hout.
    + eexists. split; [reflexivity|]. split; [discriminate|].
      split; vm_compute; reflexivity.
    + eexists. split; [reflexivity|]. split; [discriminate|].
      rewrite <- Hout. apply strip_trimmed.
  - eexists. split; [reflexivity|]. split; [discriminate|].
    rewrite <- Herr. apply strip_trimmed.
Qed.

(** ** Construction *)

Section Construction.

Context {lib : Library}.

(** X14: [__init__] prints one command and, if the executable is found,
    launches that same command. If the executable is not found it returns a
    manager for it without a process; if it is found and the launch
    succeeds it returns a manager whose process has its three pipes; if the
    launch fails, the exception of the launch reaches the caller. The
    command starts with the executable and ends with "--json-input"; a
    model or config that is [None] or empty adds nothing, and any other adds
    its flag followed by its value, model first. The disk is untouched. *)
Theorem init_command exe model config w :
  exists cmd,
    fst (__init__ exe model config w)
    = (if which w exe
       then match launch w cmd with
            | Launched =>
                Ok (mkPiperWrapper exe (Some (mkPopen true true true)))
            | LaunchOSError err => Raise (OSError err)
            | LaunchValueError err => Raise (ValueError err)
            end
       else Ok (mkPiperWrapper exe None))
    /\ trace (snd (__init__ exe model config w))
       = trace w ++ [EvPrint cmd; EvWhich exe]
         ++ (if which w exe then [EvPopen cmd] else [])
    /\ fs (snd (__init__ exe model config w)) = fs w
    /\ hd_error cmd = Some exe
    /\ last cmd [] = lit "--json-input"
    /\ (forall m c, model = Some m -> m <> [] -> config = Some c -> c <> [] ->
                    cmd = [exe; lit "--model"; m; lit "--config"; c;
                           lit "--json-input"])
    /\ (forall m, model = Some m -> m <> [] ->
                  config = None \/ config = Some [] ->
                  cmd = [exe; lit "--model"; m; lit "--json-input"])
    /\ (forall c, model = None \/ model = Some [] ->
                  config = Some c -> c <> [] ->
                  cmd = [exe; lit "--config"; c; lit "--json-input"])
    /\ (model = None \/ model = Some [] ->
        config = None \/ config = Some [] ->
        cmd = [exe; lit "--json-input"]).
Proof.
  exists ([exe] ++ opt_arg "--model" model ++ opt_arg "--config" config
          ++ [lit "--json-input"]).
  split.
  { unfold __init__. destruct (which w exe); [|reflexivity].
    now destruct (launch w _). }
  split.
  { unfold __init__. destruct (which w exe); [destruct (launch w _)|];
      cbn [snd trace log]; now rewrite <- !app_assoc. }
  split.
  { unfold __init__. destruct (which w exe); [|reflexivity].
    now destruct (launch w _). }
  split; [reflexivity|].
  split; [destruct model as [[|? ?]|], config as [[|? ?]|]; reflexivity|].
  repeat split.
  all: intros; subst;
    repeat match goal with
           | H : _ \/ _ |- _ => destruct H; subst
           | m : str |- _ => destruct m; try congruence
           end; try discriminate; reflexivity.
Qed.

(** X15: construction fails only when the executable is found and cannot
    be launched: the exception of the launch reaches the caller and no
    manager is built. If the executable is found and launched, the manager
    has all its pipes, so on every later world in which the process runs
    the three checks pass. If it is not found, construction succeeds with
    a manager without a process, and every later call of [synthesize] only
    runs the version probe of that executable and raises what it gives: the
    runtime error with the probe's message, or the probe's own exception
    when it gives no message. *)
Theorem init_defers_failure exe model config w :
  (which w exe = false ->
   exists self,
     fst (__init__ exe model config w) = Ok self
     /\ process self = None
     /\ forall text w2,
          fst (synthesize self text w2)
          = match fst (_get_error_message (mkPiperWrapper exe None) w2) with
            | Ok msg => Raise (RuntimeError msg)
            | Raise e => Raise e
            end
          /\ trace (snd (synthesize self text w2))
             = trace w2 ++ [EvRun [exe; lit "--version"]])
  /\ (which w exe = true ->
      match launch w ([exe] ++ opt_arg "--model" model
                      ++ opt_arg "--config" config ++ [lit "--json-input"])
      with
      | Launched =>
          exists self proc,
            fst (__init__ exe model config w) = Ok self
            /\ forall w2, returncode w2 = None -> ready self proc w2
      | LaunchOSError err =>
          fst (__init__ exe model config w) = Raise (OSError err)
      | LaunchValueError err =>
          fst (__init__ exe model config w) = Raise (ValueError err)
      end).
Proof.
  unfold __init__. split; intros Hwhich; rewrite Hwhich.
  - eexists. split; [reflexivity|]. split; [reflexivity|].
    intros text w2.
    now rewrite (synthesize_unavailable (mkPiperWrapper exe None) text w2
                   eq_refl).
  - destruct (launch w _); [|reflexivity|reflexivity].
    eexists _, (mkPopen true true true). split; [reflexivity|].
    intros w2 Hrc. now repeat split.
Qed.

End Construction.

(** ** The dummy response *)

Section Dummy.

Context {lib : Library}.

Lemma put_same p n disk : put p n disk p = Some n.
Proof. unfold put. now rewrite str_eqb_refl. Qed.

Lemma fake_response_outcome self text w :
  _fake_response self text w
  = (Ok (mkSynthesis (b64encode wav_header) (lit "audio/wav")
           (JList (fallback_timings text))),
     set_fs (unlink (tmp_name w ++ lit ".wav")
               (put (tmp_name w ++ lit ".wav") (File wav_header)
                  (put (tmp_name w ++ lit ".wav") (File []) (fs w))))
       (log (EvReadBytes (tmp_name w ++ lit ".wav"))
          (set_fs (put (tmp_name w ++ lit ".wav") (File wav_header)
                     (put (tmp_name w ++ lit ".wav") (File []) (fs w)))
             (set_fs (put (tmp_name w ++ lit ".wav") (File []) (fs w)) w)))).
Proof.
  unfold _fake_response, with_NamedTemporaryFile, file_write_flush. run.
  rewrite !put_same. run. rewrite put_same. reflexivity.
Qed.

(** X16: on every text and world, [_fake_response] returns: the audio is
    the encoding of the 44-byte header it has just written and read back,
    whatever the text; the mime type is "audio/wav"; the timings are the
    sequence of the fallback loop of [synthesize] for that text. The only
    file read is the temporary file, which is gone afterwards, and the rest
    of the disk is as it was. *)
Theorem fake_response_returns self text w :
  fst (_fake_response self text w)
  = Ok (mkSynthesis (b64encode wav_header) (lit "audio/wav")
          (JList (fallback_timings text)))
  /\ trace (snd (_fake_response self text w))
     = trace w ++ [EvReadBytes (tmp_name w ++ lit ".wav")]
  /\ forall p, fs (snd (_fake_response self text w)) p
               = if str_eqb p (tmp_name w ++ lit ".wav") then None
                 else fs w p.
Proof.
  rewrite fake_response_outcome. cbn [fst snd trace fs log set_fs].
  repeat split. intros p. unfold unlink, put.
  now destruct (str_eqb p (tmp_name w ++ lit ".wav")).
Qed.

(** X17: the dummy response and a real response by the fallback path agree
    on the timings and on the mime type: when the engine answers and leaves
    the audio but no sidecar, both calls return, with the same timings and
    the same mime type. *)
Theorem fake_response_matches_fallback self proc text w w' line disk audio :
  ready self proc w ->
  answered w text line disk ->
  names_a_file line disk ->
  disk (joinpath (tmp_name w) "timings.json") = None ->
  disk (joinpath (tmp_name w) "output.wav") = Some (File audio) ->
  exists real dummy,
    fst (synthesize self text w) = Ok real
    /\ fst (_fake_response self text w') = Ok dummy
    /\ timings real = timings dummy
    /\ mimeType real = mimeType dummy.
Proof.
  intros Hready Hans Hname Hnone Hwav.
  eexists _, _. split; [|split].
  - unfold synthesize.
    rewrite (synthesize_answered_fst _ _ _ _ _ _ _ Hready Hans).
    destruct Hans as (_ & _ & Hline).
    now rewrite (collect_fallback fallback_timings proc text (tmp_name w) line
                   (replied w text disk) audio Hline Hname Hnone Hwav).
  - now rewrite fake_response_outcome.
  - now split.
Qed.

End Dummy.

(** ** The further properties on the sample worlds *)


(** X2, witness: the engine that has closed its pipe. *)
Lemma failed_write_stops_the_call_closed :
  trace (snd (run_synthesize piper_up (lit "hello") w_closed))
  = trace w_closed
    ++ [EvPoll; EvMkdtemp (tmp_name w_closed);
        EvStdinWrite (request_line (lib := sample_library) (lit "hello")
                        (tmp_name w_closed))]
    ++ (if stderr all_pipes then [EvStderrRead] else [])
    ++ [EvRmtree (tmp_name w_closed)]
  /\ sent (snd (run_synthesize piper_up (lit "hello") w_closed))
     = sent w_closed
  /\ forall p, fs (snd (run_synthesize piper_up (lit "hello") w_closed)) p
               = if inside (tmp_name w_closed) p then None
                 else fs w_closed p.
Proof.
  apply (failed_write_stops_the_call (lib := sample_library) piper_up
           all_pipes (lit "hello") w_closed); [repeat split | reflexivity].
Defined.


(** X4, witness: the echoing engine. *)
Lemma one_request_and_no_writes_echo :
  sent (snd (run_synthesize piper_up (lit "hello") w_echo))
  = sent w_echo
    ++ [request_line (lib := sample_library) (lit "hello") (tmp_name w_echo)]
  /\ forall p,
       fs (snd (run_synthesize piper_up (lit "hello") w_echo)) p
       = if inside (tmp_name w_echo) p then None
         else snd (replies w_echo
                     (sent w_echo
                      ++ [request_line (lib := sample_library) (lit "hello")
                            (tmp_name w_echo)])
                     (mkdir (tmp_name w_echo) (fs w_echo))) p.
Proof.
  apply (one_request_and_no_writes (lib := sample_library) piper_up all_pipes
           (lit "hello") w_echo); [repeat split | reflexivity].
Defined.


(** X7, witness: the engine writes the audio elsewhere and echoes that
    path, which exists. *)
Lemma missing_audio_propagates_elsewhere :
  fst (run_synthesize piper_up (lit "hello") w_elsewhere)
  = Raise (FileNotFoundError (joinpath (tmp_name w_elsewhere) "output.wav")).
Proof.
  apply (missing_audio_propagates (lib := sample_library) piper_up all_pipes
           (lit "hello") w_elsewhere (lit "/srv/out.wav" ++ newline)
           elsewhere_disk).
  - repeat split.
  - repeat split. discriminate.
  - right. vm_compute. exact I.
  - left. reflexivity.
  - reflexivity.
Defined.

(** X8, witness: one engine echoes the audio path, the other the scratch
    directory. *)
Lemma response_path_not_read_echo :
  fst (run_synthesize piper_up (lit "hello") w_echo)
  = fst (run_synthesize piper_up (lit "hello") w_echo_dir).
Proof.
  apply (response_path_not_read (lib := sample_library) piper_up all_pipes
           (lit "hello") w_echo w_echo_dir (scratch_wav ++ newline)
           (scratch ++ newline) audio_disk).
  - repeat split.
  - repeat split.
  - reflexivity.
  - repeat split. discriminate.
  - repeat split. discriminate.
  - right. vm_compute. exact I.
  - right. vm_compute. exact I.
Defined.

(** X9, witness: the result of the echoing engine. *)
Lemma result_means_echo :
  exists proc line disk audio,
    ready piper_up proc w_echo
    /\ answered (lib := sample_library) w_echo (lit "hello") line disk
    /\ names_a_file line disk
    /\ disk (joinpath (tmp_name w_echo) "output.wav") = Some (File audio)
    /\ audioContent
         (mkSynthesis (base64 riff) (lit "audio/wav")
            (JList (fallback_timings (lit "hello"))))
       = base64 audio
    /\ mimeType
         (mkSynthesis (base64 riff) (lit "audio/wav")
            (JList (fallback_timings (lit "hello"))))
       = lit "audio/wav"
    /\ match disk (joinpath (tmp_name w_echo) "timings.json") with
       | None =>
           timings
             (mkSynthesis (base64 riff) (lit "audio/wav")
                (JList (fallback_timings (lit "hello"))))
           = JList (fallback_timings (lit "hello"))
       | Some (File content) =>
           exists s, ascii_decode content = Some s
                     /\ sample_json_loads s
                        = Some (timings
                                  (mkSynthesis (base64 riff) (lit "audio/wav")
                                     (JList (fallback_timings (lit "hello")))))
       | Some Dir | Some (Unreachable _) => False
       end.
Proof.
  apply (result_means (lib := sample_library) piper_up (lit "hello") w_echo).
  vm_compute. reflexivity.
Defined.



(** X12, witness: the engine that ignores the signal. *)
Lemma terminate_gives_up_after_wait_stubborn :
  fst (terminate piper_up w_stubborn) = Raise TimeoutExpired
  /\ trace (snd (terminate piper_up w_stubborn))
     = trace w_stubborn ++ [EvPoll; EvTerminate; EvWait 5]
  /\ returncode (snd (terminate piper_up w_stubborn)) = None
  /\ (ready piper_up all_pipes w_stubborn ->
      ready piper_up all_pipes (snd (terminate piper_up w_stubborn))).
Proof.
  apply (terminate_gives_up_after_wait piper_up all_pipes w_stubborn);
    reflexivity.
Defined.

(** X13, witness: a probe that prints only blank lines, and one that prints
    a diagnostic. *)
Lemma error_message_nonempty_trimmed_samples :
  (exists msg, fst (_get_error_message piper_missing w_probe_silent) = Ok msg
               /\ msg <> [] /\ trimmed msg)
  /\ (exists msg, fst (_get_error_message piper_missing w_probe_stderr) = Ok msg
                  /\ msg <> [] /\ trimmed msg).
Proof.
  split.
  - apply (error_message_nonempty_trimmed piper_missing w_probe_silent
             newline (newline ++ newline)).
    reflexivity.
  - apply (error_message_nonempty_trimmed piper_missing w_probe_stderr
             (lit "usage" ++ newline) (lit "boom" ++ newline)).
    reflexivity.
Defined.

(** X17, witness: the echoing engine and any world for the dummy. *)
Lemma fake_response_matches_fallback_echo :
  exists real dummy,
    fst (run_synthesize piper_up (lit "hello world") w_echo) = Ok real
    /\ fst (_fake_response (lib := sample_library) piper_missing
              (lit "hello world") w_missing) = Ok dummy
    /\ timings real = timings dummy
    /\ mimeType real = mimeType dummy.
Proof.
  apply (fake_response_matches_fallback (lib := sample_library) piper_up
           all_pipes (lit "hello world") w_echo w_missing
           (scratch_wav ++ newline) audio_disk riff).
  - repeat split.
  - repeat split. discriminate.
  - right. vm_compute. exact I.
  - reflexivity.
  - reflexivity.
Defined.

(** X14, witness: a model and an empty config, the executable found. *)
Lemma init_command_model_only :
  exists cmd,
    trace (snd (__init__ (lit "piper") (Some (lit "en.onnx")) (Some []) w_echo))
    = trace w_echo ++ [EvPrint cmd; EvWhich (lit "piper")]
      ++ (if which w_echo (lit "piper") then [EvPopen cmd] else [])
    /\ cmd = [lit "piper"; lit "--model"; lit "en.onnx"; lit "--json-input"].
Proof.
  destruct (init_command (lit "piper") (Some (lit "en.onnx")) (Some []) w_echo)
    as (cmd & _ & Htrace & _ & _ & _ & _ & Hmodel & _).
  exists cmd. split; [exact Htrace|].
  apply (Hmodel (lit "en.onnx"));
    [reflexivity | discriminate | right; reflexivity].
Defined.

(** The executable is found and cannot be executed: construction raises
    the OS error of the launch. *)
Example init_exec_format :
  fst (__init__ (lit "piper") None None w_exec_format)
  = Raise (OSError (lit "[Errno 8] Exec format error: 'piper'")).
Proof. reflexivity. Qed.

(** X15, witness: the executable missing, found and launched, and found
    but not executable. *)
Lemma init_defers_failure_samples :
  (exists self,
     fst (__init__ (lit "piper") None None w_missing) = Ok self
     /\ process self = None
     /\ fst (run_synthesize self (lit "hello") w_missing)
        = Raise (RuntimeError
                   (lit "[Errno 2] No such file or directory: 'piper'")))
  /\ (exists self proc,
        fst (__init__ (lit "piper") None None w_echo) = Ok self
        /\ forall w2, returncode w2 = None -> ready self proc w2)
  /\ fst (__init__ (lit "piper") None None w_exec_format)
     = Raise (OSError (lit "[Errno 8] Exec format error: 'piper'")).
Proof.
  split; [|split].
  - destruct (proj1 (init_defers_failure (lib := sample_library) (lit "piper")
                       None None w_missing) eq_refl)
      as (self & Hself & Hnone & Hcall).
    exists self. split; [exact Hself|]. split; [exact Hnone|].
    exact (proj1 (Hcall (lit "hello") w_missing)).
  - exact (proj2 (init_defers_failure (lib := sample_library) (lit "piper")
                    None None w_echo) eq_refl).
  - exact (proj2 (init_defers_failure (lib := sample_library) (lit "piper")
                    None None w_exec_format) eq_refl).
Defined.

(** ** The estimator and the shape of the text *)

Lemma split_from_trailing_space (s cur : str) (c : char) :
  isspace c = true -> split_from cur (s ++ [c]) = split_from cur s.
Proof.
  intros Hc. revert cur; induction s as [|a s IH]; intros cur.
  - cbn. rewrite Hc. now destruct cur.
  - cbn [app split_from]. destruct (isspace a); [|apply IH].
    destruct cur; now rewrite IH.
Qed.

Lemma split_lstrip (s : str) : split (lstrip s) = split s.
Proof.
  unfold split. induction s as [|c s IH]; [reflexivity|].
  cbn. destruct (isspace c) eqn:Hc; [exact IH|]. cbn. now rewrite Hc.
Qed.

Lemma split_rstrip (s : str) : split (rstrip s) = split s.
Proof.
  unfold rstrip. rewrite <- (rev_involutive s) at 2.
  induction (rev s) as [|c r IH]; [reflexivity|].
  cbn [lstrip rev]. destruct (isspace c) eqn:Hc; [|reflexivity].
  rewrite IH. unfold split. now rewrite split_from_trailing_space.
Qed.

Lemma count_word_starts_bound (s : str) (b : bool) :
  2 * count_word_starts b s <= length s + (if b then 1 else 0).
Proof.
  revert b; induction s as [|c s IH]; intros b; [destruct b; cbn; lia|].
  cbn [count_word_starts length].
  destruct b, (isspace c) eqn:Hc; cbn [andb negb];
    [ specialize (IH true) | specialize (IH false)
    | specialize (IH true) | specialize (IH false) ];
    cbn in IH |- *; lia.
Qed.

(** X18: whitespace around the text does not change the fallback timings,
    and a text of [n] code points gives at most [(n + 1) / 2] entries. *)
Theorem fallback_timings_shape (text : str) :
  fallback_timings (strip text) = fallback_timings text
  /\ 2 * length (fallback_timings text) <= length text + 1.
Proof.
  split.
  - unfold fallback_timings, strip. now rewrite split_rstrip, split_lstrip.
  - rewrite fallback_timings_entries, entries_from_length,
      split_length_word_count.
    apply (count_word_starts_bound text true).
Qed.
